(** * Resumable barcode -> image-URL enrichment (barcode_image_url_finder.py)

    A shallow embedding of [normalize_barcode], [pick_best_image_url],
    [fetch_openfacts_product], [find_image_url_zero_cost] and [process_csv],
    followed by the properties of the enrichment pipeline.
    The lookups of html_barcode_image_fetcher.py ([_get],
    [parse_image_candidates], [extract_go_upc_details], [lookup_go_upc],
    [lookup_barcode_lookup], [find_images_from_sites] and [enrich_csv]) are
    embedded in the module [html_fetcher], over BeautifulSoup as an interface.

    Conventions of the embedding
    - A Python [str] is the list of its Unicode code points ([list N]).
    - A Python [dict] keeps insertion order and has unique keys: it is an
      association list, read with [dict_get] and written with [dict_set].
      The run-time cache [barcode_to_image] is only read and written by key,
      so it is a [gmap].
    - Python integers are unbounded: [Z]; [%] on them is [Z.modulo].
    - Effects (HTTP requests, sleeps, file writes) are events emitted by a
      small state-and-error monad over a [world] holding the two files of the
      progress store and the answers the network is going to give.  The
      event [EvLookup] marks the entry of [find_image_url_zero_cost]; it has
      no effect on the world.

    Outside the model: failures of the operating system while writing
    (a write either happens or the run is interrupted before it), a negative
    delay (which [time.sleep] rejects), the text printed under [verbose],
    and the computation of the two file names, which are taken to differ. *)

From Stdlib Require Import ZArith QArith String Ascii.
From stdpp Require Import gmap list sorting.

Set Default Proof Using "Type".
Local Open Scope Z_scope.

(** ** Python strings *)

Abbreviation str := (list N).

(** An ASCII literal as a Python string. *)
Definition py (s : string) : str :=
  List.map N_of_ascii (list_ascii_of_string s).

Definition in_ranges (table : list (N * N)) (c : N) : bool :=
  existsb (fun r => (fst r <=? c)%N && (c <=? snd r)%N) table.

(** [str.isdigit] on one character: Numeric_Type=Digit or Decimal
    (table of Unicode 14.0, the data of CPython 3.11). *)
Definition isdigit_table : list (N * N) :=
  [ (48, 57); (178, 179); (185, 185); (1632, 1641); (1776, 1785);
    (1984, 1993); (2406, 2415); (2534, 2543); (2662, 2671); (2790, 2799);
    (2918, 2927); (3046, 3055); (3174, 3183); (3302, 3311); (3430, 3439);
    (3558, 3567); (3664, 3673); (3792, 3801); (3872, 3881); (4160, 4169);
    (4240, 4249); (4969, 4977); (6112, 6121); (6160, 6169); (6470, 6479);
    (6608, 6618); (6784, 6793); (6800, 6809); (6992, 7001); (7088, 7097);
    (7232, 7241); (7248, 7257); (8304, 8304); (8308, 8313); (8320, 8329);
    (9312, 9320); (9332, 9340); (9352, 9360); (9450, 9450); (9461, 9469);
    (9471, 9471); (10102, 10110); (10112, 10120); (10122, 10130);
    (42528, 42537); (43216, 43225); (43264, 43273); (43472, 43481);
    (43504, 43513); (43600, 43609); (44016, 44025); (65296, 65305);
    (66720, 66729); (68160, 68163); (68912, 68921); (69216, 69224);
    (69714, 69722); (69734, 69743); (69872, 69881); (69942, 69951);
    (70096, 70105); (70384, 70393); (70736, 70745); (70864, 70873);
    (71248, 71257); (71360, 71369); (71472, 71481); (71904, 71913);
    (72016, 72025); (72784, 72793); (73040, 73049); (73120, 73129);
    (92768, 92777); (92864, 92873); (93008, 93017); (120782, 120831);
    (123200, 123209); (123632, 123641); (125264, 125273); (127232, 127242);
    (130032, 130041) ]%N.

Definition isdigit (ch : N) : bool := in_ranges isdigit_table ch.

(** [str.isdecimal] on one character: the decimal digits of every script
    (general category Nd, same Unicode version). *)
Definition isdecimal_table : list (N * N) :=
  [ (48, 57); (1632, 1641); (1776, 1785); (1984, 1993); (2406, 2415);
    (2534, 2543); (2662, 2671); (2790, 2799); (2918, 2927); (3046, 3055);
    (3174, 3183); (3302, 3311); (3430, 3439); (3558, 3567); (3664, 3673);
    (3792, 3801); (3872, 3881); (4160, 4169); (4240, 4249); (6112, 6121);
    (6160, 6169); (6470, 6479); (6608, 6617); (6784, 6793); (6800, 6809);
    (6992, 7001); (7088, 7097); (7232, 7241); (7248, 7257); (42528, 42537);
    (43216, 43225); (43264, 43273); (43472, 43481); (43504, 43513);
    (43600, 43609); (44016, 44025); (65296, 65305); (66720, 66729);
    (68912, 68921); (69734, 69743); (69872, 69881); (69942, 69951);
    (70096, 70105); (70384, 70393); (70736, 70745); (70864, 70873);
    (71248, 71257); (71360, 71369); (71472, 71481); (71904, 71913);
    (72016, 72025); (72784, 72793); (73040, 73049); (73120, 73129);
    (92768, 92777); (92864, 92873); (93008, 93017); (120782, 120831);
    (123200, 123209); (123632, 123641); (125264, 125273);
    (130032, 130041) ]%N.

Definition isdecimal (ch : N) : bool := in_ranges isdecimal_table ch.

(** The ten characters '0'..'9'. *)
Definition is_ascii_digit (ch : N) : bool := (48 <=? ch)%N && (ch <=? 57)%N.

(** [str.isspace] on one character; [str.strip()] removes exactly these. *)
Definition isspace_table : list (N * N) :=
  [ (9, 13); (28, 32); (133, 133); (160, 160); (5760, 5760); (8192, 8202);
    (8232, 8233); (8239, 8239); (8287, 8287); (12288, 12288) ]%N.

Definition isspace (ch : N) : bool := in_ranges isspace_table ch.

Fixpoint lstrip (s : str) : str :=
  match s with
  | c :: s' => if isspace c then lstrip s' else s
  | [] => []
  end.

(** [s.strip()] *)
Definition strip (s : str) : str := rev (lstrip (rev (lstrip s))).

(** [sep.join(parts)] *)
Fixpoint join (sep : str) (parts : list str) : str :=
  match parts with
  | [] => []
  | [p] => p
  | p :: rest => p ++ sep ++ join sep rest
  end.

(** Truth value of a string: non-empty. *)
Definition str_truthy (s : str) : bool :=
  match s with [] => false | _ => true end.

(** [a < b] on strings: lexicographic on code points. *)
Fixpoint str_ltb (a b : str) : bool :=
  match a, b with
  | _, [] => false
  | [], _ :: _ => true
  | x :: a', y :: b' => (x <? y)%N || ((x =? y)%N && str_ltb a' b')
  end.

(** ** normalize_barcode (both modules define the same function)

    [digits = "".join(ch for ch in (raw or "") if ch.isdigit())].
    [raw] may be [None]: csv.DictReader fills the missing cells of a short
    record with [None]. *)
Definition normalize_barcode (raw : option str) : str :=
  join [] (List.map (fun ch => [ch]) (List.filter isdigit (default [] raw))).

Module html_barcode_image_fetcher.
Definition normalize_barcode (raw : option str) : str :=
  join [] (List.map (fun ch => [ch]) (List.filter isdigit (default [] raw))).
End html_barcode_image_fetcher.

(** The policy in the words of the specification: keep the decimal digit
    characters, in order.  [decimal_digits] reads "decimal digit" as any
    Unicode decimal digit, [ascii_digits] as '0'..'9'. *)
Definition decimal_digits (raw : str) : str := List.filter isdecimal raw.
Definition ascii_digits (raw : str) : str := List.filter is_ascii_digit raw.

(** ** JSON values as [json.load] / [resp.json()] return them *)

#[local] Unset Elimination Schemes.
Inductive json :=
| JNull
| JBool (b : bool)
| JInt (n : Z)
| JFloat (q : Q)              (* a finite float, as its exact value *)
| JNonFinite                  (* NaN, Infinity, -Infinity *)
| JStr (s : str)
| JList (l : list json)
| JDict (d : list (str * json)).
#[local] Set Elimination Schemes.

Abbreviation pydict V := (list (str * V)).

(** [d.get(key)]: [None] when the key is absent. *)
Fixpoint dict_get {V} (d : pydict V) (key : str) : option V :=
  match d with
  | [] => None
  | (k, v) :: d' => if decide (k = key) then Some v else dict_get d' key
  end.

(** [d[key] = v]: replaces the value in place or adds the key at the end. *)
Fixpoint dict_set {V} (d : pydict V) (key : str) (v : V) : pydict V :=
  match d with
  | [] => [(key, v)]
  | (k, x) :: d' =>
      if decide (k = key) then (k, v) :: d' else (k, x) :: dict_set d' key v
  end.

(** [sorted(d.items())]: the keys are distinct, so the pairs are ordered by
    key alone. *)
Fixpoint insert_item {V} (kv : str * V) (l : pydict V) : pydict V :=
  match l with
  | [] => [kv]
  | kv' :: l' =>
      if str_ltb (fst kv) (fst kv') then kv :: l else kv' :: insert_item kv l'
  end.

Definition sorted_items {V} (d : pydict V) : pydict V :=
  foldr insert_item [] d.

(** [isinstance(v, str) and v.strip()], then [v.strip()]. *)
Definition stripped_url (v : option json) : option str :=
  match v with
  | Some (JStr url) => if str_truthy (strip url) then Some (strip url) else None
  | _ => None
  end.

(** The first element of a list for which [f] answers: a [for] loop whose
    body returns on the first hit. *)
Fixpoint first_some {A B} (f : A -> option B) (l : list A) : option B :=
  match l with
  | [] => None
  | a :: l' => match f a with Some b => Some b | None => first_some f l' end
  end.

Definition preferred_keys : list str :=
  [ py "image_front_url"; py "image_url"; py "image_pack_url";
    py "image_ingredients_url"; py "image_nutrition_url";
    py "image_small_url"; py "image_thumb_url" ].

Definition pick_from_size (sec : pydict json) (size : str) : option str :=
  match dict_get sec size with
  | Some (JDict sz) =>
      match stripped_url (dict_get sz (py "en")) with
      | Some url => Some url
      | None => first_some (fun kv => stripped_url (Some (snd kv))) (sorted_items sz)
      end
  | _ => None
  end.

Definition pick_from_section (selected : pydict json) (section : str) : option str :=
  match dict_get selected section with
  | Some (JDict sec) =>
      first_some (pick_from_size sec) [py "display"; py "small"; py "thumb"]
  | _ => None
  end.

Definition pick_best_image_url (product : pydict json) : option str :=
  match first_some (fun key => stripped_url (dict_get product key)) preferred_keys with
  | Some url => Some url
  | None =>
      match dict_get product (py "selected_images") with
      | Some (JDict selected) =>
          first_some (pick_from_section selected)
                     [py "front"; py "ingredients"; py "nutrition"]
      | _ => None
      end
  end.

(** ** The outside world: network answers and the two progress-store files *)

(** What [requests.get] did. *)
Inductive http_result :=
| RequestFailed                       (* raised requests.RequestException *)
| Response (status_code : Z) (body : option json).
                                      (* body [None]: the text is not JSON *)

(** An input record as csv.DictReader yields it: column name to cell; the
    cells missing from a short record are [None].  (The surplus cells of a
    record longer than the header are stored under the key [None], which is
    no [str]: such records are outside this type, as they are outside the
    annotation [Dict[str, str]] of the source.) *)
Abbreviation row := (pydict (option str)).

Inductive open_mode := ModeW | ModeA.

#[global] Instance open_mode_eq_dec : EqDecision open_mode.
Proof. solve_decision. Defined.

(** One record of the output CSV file. *)
Inductive csv_record :=
| HeaderRecord (fieldnames : list str)
| DataRecord (r : row).

(** Text of the checkpoint file, as [json.load] sees it. *)
Inductive ckpt_content :=
| NotJson
| Json (j : json).

Inductive exn := ValueError | IndexError.

Inductive event :=
| EvLookup (barcode : str)            (* find_image_url_zero_cost is entered *)
| EvRequest (host barcode : str) (r : http_result)
| EvSleep (d : Q)
| EvMakedirs
| EvAppendRows (mode : open_mode) (header : option (list str)) (batch : list row)
| EvCheckpoint (count : Z).

(** [network n host barcode] is the outcome of the request for [barcode] on
    [host] when [n] requests have been sent before it.  A file is [None] when
    it cannot be opened for reading. *)
Record world := World {
  network : nat -> str -> str -> http_result;
  requests_sent : nat;
  progress_csv : option (list csv_record);
  ckpt_path : option ckpt_content }.

(** [open(progress_csv, mode)] followed by the header, if any, and the
    batch: "w" starts from an empty file, "a" from the old content. *)
Definition written (mode : open_mode) (header : option (list str))
    (batch : list row) (old : option (list csv_record)) : list csv_record :=
  match mode with ModeW => [] | ModeA => default [] old end
  ++ match header with Some h => [HeaderRecord h] | None => [] end
  ++ List.map DataRecord batch.

(** [json.dump({"processed_count": processed_count}, cf)] *)
Definition ckpt_record (count : Z) : ckpt_content :=
  Json (JDict [(py "processed_count", JInt count)]).

(** The effect of one event on the world. *)
Definition apply_event (w : world) (e : event) : world :=
  match e with
  | EvRequest _ _ _ =>
      World (network w) (S (requests_sent w)) (progress_csv w) (ckpt_path w)
  | EvAppendRows mode header batch =>
      World (network w) (requests_sent w)
            (Some (written mode header batch (progress_csv w))) (ckpt_path w)
  | EvCheckpoint count =>
      World (network w) (requests_sent w) (progress_csv w)
            (Some (ckpt_record count))
  | EvLookup _ | EvSleep _ | EvMakedirs => w
  end.

(** The world after a sequence of events: also the world an interruption
    leaves behind when it strikes after these events. *)
Definition replay (w : world) (evs : list event) : world :=
  foldl apply_event w evs.

(** ** A state, error and event-log monad *)

Inductive result (A : Type) :=
| Ok (a : A)
| Raise (e : exn).
Arguments Ok {A} a.
Arguments Raise {A} e.

Definition M (A : Type) : Type := world -> result A * world * list event.

Definition ret {A} (a : A) : M A := fun w => (Ok a, w, []).

Definition bind {A B} (c : M A) (k : A -> M B) : M B := fun w =>
  match c w with
  | (Ok a, w1, evs1) =>
      match k a w1 with (r, w2, evs2) => (r, w2, evs1 ++ evs2) end
  | (Raise e, w1, evs1) => (Raise e, w1, evs1)
  end.

Definition raise {A} (e : exn) : M A := fun w => (Raise e, w, []).

Definition emit (e : event) : M unit := fun w => (Ok tt, apply_event w e, [e]).

Definition get_world : M world := fun w => (Ok w, w, []).

Notation "x <- c ;; k" := (bind c (fun x => k))
  (at level 100, c at next level, right associativity).
Notation "c ;; k" := (bind c (fun _ => k))
  (at level 100, right associativity).

(** [for a in l: s = body(s, a)], left when the body raises. *)
Fixpoint for_each {S A} (body : S -> A -> M S) (l : list A) (s : S) : M S :=
  match l with
  | [] => ret s
  | a :: l' => s' <- body s a ;; for_each body l' s'
  end.

(** [requests.get(url, headers=headers, timeout=timeout)] *)
Definition requests_get (host barcode : str) : M http_result := fun w =>
  let r := network w (requests_sent w) host barcode in
  (Ok r, apply_event w (EvRequest host barcode r), [EvRequest host barcode r]).

(** ** fetch_openfacts_product *)

(** [v == 1] for a JSON value [v]. *)
Definition eq_one (v : option json) : bool :=
  match v with
  | Some (JInt n) => n =? 1
  | Some (JBool b) => b
  | Some (JFloat q) => Qeq_bool q 1
  | _ => false
  end.

(** The body of the [try]: every exception it can raise is caught and
    answered by [None]. *)
Definition product_of_response (r : http_result) : option (pydict json) :=
  match r with
  | RequestFailed => None
  | Response status_code body =>
      if status_code =? 404 then None
      else if (400 <=? status_code) && (status_code <? 600) then None
                                      (* raise_for_status *)
      else match body with
           | None => None                                (* JSONDecodeError *)
           | Some (JDict data) =>
               match eq_one (dict_get data (py "status")),
                     dict_get data (py "product") with
               | true, Some (JDict product) => Some product
               | _, _ => None
               end
           | Some _ => None
           end
  end.

Definition fetch_openfacts_product (barcode host : str) : M (option (pydict json)) :=
  r <- requests_get host barcode ;;
  ret (product_of_response r).

(** ** find_image_url_zero_cost *)

Definition OPEN_FACTS_SOURCES : list (str * str) :=
  [ (py "world.openfoodfacts.org", py "openfoodfacts");
    (py "world.openbeautyfacts.org", py "openbeautyfacts");
    (py "world.openpetfoodfacts.org", py "openpetfoodfacts") ].

(** [if product: img = pick_best_image_url(product); if img: ...] *)
Definition image_of (product : option (pydict json)) : option str :=
  match product with
  | Some (kv :: d) =>
      match pick_best_image_url (kv :: d) with
      | Some img => if str_truthy img then Some img else None
      | None => None
      end
  | _ => None
  end.

(** [for attempt in range(retries)] on one source; [Some] is the [return]
    from inside the loop. *)
Fixpoint attempts (barcode host source_name : str) (per_source_delay_s : Q)
    (n : nat) : M (option (str * str)) :=
  match n with
  | O => ret None
  | S n' =>
      product <- fetch_openfacts_product barcode host ;;
      match image_of product with
      | Some img => ret (Some (img, source_name))
      | None =>
          emit (EvSleep per_source_delay_s) ;;
          attempts barcode host source_name per_source_delay_s n'
      end
  end.

(** [for host, source_name in OPEN_FACTS_SOURCES] *)
Fixpoint try_sources (barcode : str) (per_source_delay_s : Q) (retries : Z)
    (sources : list (str * str)) : M (option str * option str) :=
  match sources with
  | [] => ret (None, None)
  | (host, source_name) :: rest =>
      found <- attempts barcode host source_name per_source_delay_s
                        (Z.to_nat retries) ;;
      match found with
      | Some (img, source) => ret (Some img, Some source)
      | None => try_sources barcode per_source_delay_s retries rest
      end
  end.

Definition find_image_url_zero_cost (barcode : str) (per_source_delay_s : Q)
    (retries : Z) : M (option str * option str) :=
  emit (EvLookup barcode) ;;
  try_sources barcode per_source_delay_s retries OPEN_FACTS_SOURCES.

(** ** process_csv *)

(** The keyword arguments of [process_csv] that drive the run.  [input_csv]
    is represented by what [read_csv_rows] returns for it; [output_csv] and
    [out_dir] only name the two files of the [world]; [verbose] only
    prints. *)
Record args := Args {
  barcode_col : str;
  per_source_delay_s : Q;
  retries : Z;
  limit : option Z;
  checkpoint_every : Z;
  resume : bool }.

(** The local variables the loop of [process_csv] updates. *)
Record loop_state := LoopState {
  barcode_to_image : gmap str (option str * option str);
  processed_count : Z;
  pending_batch : list row;
  needs_header : bool }.

(** [range(start, stop)] *)
Definition py_range (start stop : Z) : list Z :=
  List.map (fun i => start + Z.of_nat i) (seq 0 (Z.to_nat (stop - start))).

(** [l[idx]]: a negative index counts from the end; [None] is IndexError. *)
Definition py_index {A} (l : list A) (idx : Z) : option A :=
  if 0 <=? idx then l !! Z.to_nat idx
  else if 0 <=? Z.of_nat (length l) + idx
       then l !! Z.to_nat (Z.of_nat (length l) + idx)
       else None.

(** [rows[:limit]] under [isinstance(limit, int) and limit > 0] *)
Definition apply_limit {A} (limit : option Z) (rows : list A) : list A :=
  match limit with
  | Some n => if 0 <? n then take (Z.to_nat n) rows else rows
  | None => rows
  end.

Definition image_url : str := py "image_url".

(** [out_fieldnames] *)
Definition out_fieldnames_of (fieldnames : list str) : list str :=
  if bool_decide (image_url ∈ fieldnames) then fieldnames
  else fieldnames ++ [image_url].

(** [needs_header] before the loop: [False] only when resuming onto an
    output file that can be opened. *)
Definition initial_needs_header (resume : bool)
    (progress : option (list csv_record)) : bool :=
  if resume then match progress with Some _ => false | None => true end
  else true.

(** The nested function [append_rows]; it also clears [needs_header]. *)
Definition append_rows (out_fieldnames : list str) (needs_header : bool)
    (batch : list row) : M bool :=
  let mode := if needs_header then ModeW else ModeA in
  emit (EvAppendRows mode
          (if needs_header then Some out_fieldnames else None) batch) ;;
  ret false.

(** [append_rows(pending_batch)], then the checkpoint file is rewritten. *)
Definition commit (out_fieldnames : list str) (st : loop_state)
    : M loop_state :=
  needs_header' <- append_rows out_fieldnames (needs_header st)
                               (pending_batch st) ;;
  emit (EvCheckpoint (processed_count st)) ;;
  ret (LoopState (barcode_to_image st) (processed_count st) []
                 needs_header').

(** The cache lookup of one row: [img_url] and the cache afterwards. *)
Definition resolve (a : args) (norm : str)
    (cache : gmap str (option str * option str))
    : M (gmap str (option str * option str) * option str) :=
  if str_truthy norm then
    cache' <- match cache !! norm with
              | None =>
                  found <- find_image_url_zero_cost norm
                             (per_source_delay_s a) (retries a) ;;
                  ret (<[norm := found]> cache)
              | Some _ => ret cache
              end ;;
    ret (cache', fst (default (None, None) (cache' !! norm)))
  else ret (cache, None).

(** The enriched row: [new_row = dict(row); new_row["image_url"] = img_url or ""]. *)
Definition enrich (r : row) (img_url : option str) : row :=
  dict_set r image_url (Some (default [] img_url)).

(** The body of [for idx in range(start_index, total)]. *)
Definition process_row (a : args) (out_fieldnames : list str)
    (rows : list row) (st : loop_state) (idx : Z) : M loop_state :=
  match py_index rows idx with
  | None => raise IndexError
  | Some r =>
      let raw := default (Some []) (dict_get r (barcode_col a)) in
      let norm := normalize_barcode raw in
      res <- resolve a norm (barcode_to_image st) ;;
      let st' := LoopState (fst res) (processed_count st + 1)
                           (pending_batch st ++ [enrich r (snd res)])
                           (needs_header st) in
      if (0 <? checkpoint_every a)
         && (processed_count st' mod checkpoint_every a =? 0)
      then commit out_fieldnames st'
      else ret st'
  end.

Section Pipeline.

(** Python's [int] applied to a string: the integer it denotes, [None]
    when [int] raises ValueError. *)
Variable int_of_str : str -> option Z.

(** [int(v)] for a JSON value; [None] when it raises. *)
Definition py_int (v : json) : option Z :=
  match v with
  | JInt n => Some n
  | JBool b => Some (if b then 1 else 0)
  | JFloat q => Some (Z.quot (Qnum q) (Z.pos (Qden q)))
  | JStr s => int_of_str s
  | JNonFinite | JNull | JList _ | JDict _ => None
  end.

(** The checkpoint a run resuming from this file starts at:
    [int(ckpt.get("processed_count", 0))], and 0 when anything in the
    [try] block raises. *)
Definition load_checkpoint (ckpt : option ckpt_content) : Z :=
  match ckpt with
  | Some (Json (JDict d)) =>
      default 0 (py_int (default (JInt 0) (dict_get d (py "processed_count"))))
  | _ => 0
  end.

Definition start_index_of (resume : bool) (ckpt : option ckpt_content) : Z :=
  if resume then load_checkpoint ckpt else 0.

Definition process_csv (a : args) (fieldnames : list str)
    (rows : list row) : M unit :=
  if bool_decide (barcode_col a ∈ fieldnames) then
    let rows := apply_limit (limit a) rows in
    let out_fieldnames := out_fieldnames_of fieldnames in
    emit EvMakedirs ;;
    w <- get_world ;;
    let start_index := start_index_of (resume a) (ckpt_path w) in
    let needs_header := initial_needs_header (resume a) (progress_csv w) in
    let total := Z.of_nat (length rows) in
    st <- for_each (process_row a out_fieldnames rows)
                   (py_range start_index total)
                   (LoopState ∅ start_index [] needs_header) ;;
    match pending_batch st with
    | [] => ret tt
    | _ :: _ => commit out_fieldnames st ;; ret tt
    end
  else raise ValueError.

End Pipeline.

(** ** Observations of a run *)

Definition outcome_of {A} (c : M A) (w : world) : result A := (c w).1.1.
Definition world_after {A} (c : M A) (w : world) : world := (c w).1.2.
Definition events_of {A} (c : M A) (w : world) : list event := (c w).2.

(** Every change of the world is the effect of the events emitted. *)
Definition sound {A} (c : M A) : Prop :=
  forall w, world_after c w = replay w (events_of c w).

Definition is_lookup (k : str) (e : event) : bool :=
  match e with EvLookup b => bool_decide (b = k) | _ => false end.

Definition is_request (k : str) (e : event) : bool :=
  match e with EvRequest _ b _ => bool_decide (b = k) | _ => false end.

Definition is_request_to (host : str) (e : event) : bool :=
  match e with EvRequest h _ _ => bool_decide (h = host) | _ => false end.

Definition is_sleep (e : event) : bool :=
  match e with EvSleep _ => true | _ => false end.

Definition is_write (e : event) : bool :=
  match e with EvAppendRows _ _ _ | EvCheckpoint _ => true | _ => false end.

(** How often [find_image_url_zero_cost] was called for key [k]. *)
Definition lookups_of (k : str) (evs : list event) : nat :=
  length (List.filter (is_lookup k) evs).

(** How many HTTP requests were sent for key [k]. *)
Definition requests_for (k : str) (evs : list event) : nat :=
  length (List.filter (is_request k) evs).

(** The data rows handed to the output file, in the order written. *)
Definition rows_written (evs : list event) : list row :=
  flat_map (fun e => match e with EvAppendRows _ _ batch => batch | _ => [] end)
           evs.

(** The values written to the checkpoint file, in the order written. *)
Definition checkpoints_written (evs : list event) : list Z :=
  flat_map (fun e => match e with EvCheckpoint n => [n] | _ => [] end) evs.

(** The number of data rows held by the output file. *)
Definition data_rows (progress : option (list csv_record)) : Z :=
  Z.of_nat (length (List.filter
    (fun rec => match rec with DataRecord _ => true | HeaderRecord _ => false end)
    (default [] progress))).

(** The lookup key of a row: [normalize_barcode(row.get(barcode_col, ""))]. *)
Definition key_of (a : args) (r : row) : str :=
  normalize_barcode (default (Some []) (dict_get r (barcode_col a))).

(** The rows a loop over the indices [idxs] gets to: all of them up to the
    first index that is out of range. *)
Fixpoint visited {A} (l : list A) (idxs : list Z) : list A :=
  match idxs with
  | [] => []
  | idx :: rest =>
      match py_index l idx with
      | Some x => x :: visited l rest
      | None => []
      end
  end.

(** [img_url] for a key, given the cache. *)
Definition img_url_of (cache : gmap str (option str * option str))
    (k : str) : option str :=
  if str_truthy k then fst (default (None, None) (cache !! k)) else None.

(** The events of one source's attempt sequence, given the answers its
    requests receive one after the other. *)
Fixpoint attempt_events (barcode host : str) (d : Q)
    (answers : list http_result) : list event :=
  match answers with
  | [] => []
  | r :: rest =>
      EvRequest host barcode r ::
      match image_of (product_of_response r) with
      | Some _ => []
      | None => EvSleep d :: attempt_events barcode host d rest
      end
  end.

(** The answers to [n] consecutive requests for [barcode] on [host]. *)
Definition answers (w : world) (host barcode : str) (n : nat)
    : list http_result :=
  List.map (fun i => network w (requests_sent w + i)%nat host barcode) (seq 0 n).

(** *** The commit protocol, as a scanner of event sequences

    [Idle nh c]: no write is in progress, [c] rows are accounted for by the
    checkpoint, [nh] tells whether the header is still to be written.
    [Appended c]: a batch has been appended and the checkpoint [c] is due. *)
Inductive phase :=
| Idle (nh : bool) (count : Z)
| Appended (count : Z).

Definition step (fields : list str) (ph : phase) (e : event) : option phase :=
  match ph, e with
  | Idle nh c, EvAppendRows mode header (r :: batch) =>
      if bool_decide (mode = (if nh then ModeW else ModeA)
                      /\ header = (if nh then Some fields else None))
      then Some (Appended (c + Z.of_nat (length (r :: batch))))
      else None
  | Idle _ _, EvAppendRows _ _ [] => None
  | Idle _ _, EvCheckpoint _ => None
  | Idle nh c, _ => Some (Idle nh c)
  | Appended c, EvCheckpoint n =>
      if bool_decide (n = c) then Some (Idle false c) else None
  | Appended _, _ => None
  end.

Fixpoint scan (fields : list str) (ph : phase) (evs : list event)
    : option phase :=
  match evs with
  | [] => Some ph
  | e :: rest =>
      match step fields ph e with
      | Some ph' => scan fields ph' rest
      | None => None
      end
  end.

(** *** The claims of the specification that the code does not meet, in the
    words of the specification *)

(** "Not found" (HTTP 404) is terminal: no request follows it on the same
    source for the same key. *)
Definition not_found_is_terminal (evs : list event) : Prop :=
  forall pre post host k body,
    evs = pre ++ EvRequest host k (Response 404 body) :: post ->
    forall r, EvRequest host k r ∉ post.

(** No sleep after the final attempt of a sequence. *)
Definition no_sleep_after_final_attempt (evs : list event) : Prop :=
  forall pre d, evs <> pre ++ [EvSleep d].

(** All original columns are carried over unchanged. *)
Definition carried_over_unchanged (r new_row : row) : Prop :=
  forall col, col ∈ r.*1 -> dict_get new_row col = dict_get r col.

(** *** Vocabulary of the loop *)

(** The events the attempts for key [k] may emit. *)
Definition of_attempts (k : str) (e : event) : Prop :=
  match e with
  | EvRequest _ b _ => b = k
  | EvSleep _ => True
  | _ => False
  end.

(** The final flush: [if pending_batch: ...]. *)
Definition flush_events (fields : list str) (st : loop_state) : list event :=
  match pending_batch st with
  | [] => []
  | _ :: _ =>
      [ EvAppendRows (if needs_header st then ModeW else ModeA)
                     (if needs_header st then Some fields else None)
                     (pending_batch st);
        EvCheckpoint (processed_count st) ]
  end.

(** [loop_post a fields st V st' evs]: what holds when the loop has taken the
    state [st] to [st'] over the rows [V], emitting [evs]. *)
Definition loop_post (a : args) (fields : list str) (st : loop_state)
    (V : list row) (st' : loop_state) (evs : list event) : Prop :=
  processed_count st' = processed_count st + Z.of_nat (length V)
  /\ barcode_to_image st ⊆ barcode_to_image st'
  /\ (forall k, k = [] \/ k ∉ key_of a <$> V ->
        barcode_to_image st' !! k = barcode_to_image st !! k)
  /\ (forall k, k <> [] -> k ∈ key_of a <$> V ->
        is_Some (barcode_to_image st' !! k))
  /\ (forall k v, barcode_to_image st' !! k = Some v ->
        barcode_to_image st !! k = Some v \/ v.1 <> Some [])
  /\ rows_written evs ++ pending_batch st' =
     pending_batch st ++
     List.map (fun r => enrich r (img_url_of (barcode_to_image st') (key_of a r))) V
  /\ scan fields
       (Idle (needs_header st)
             (processed_count st - Z.of_nat (length (pending_batch st)))) evs
     = Some (Idle (needs_header st')
                  (processed_count st' - Z.of_nat (length (pending_batch st'))))
  /\ (forall k, lookups_of k evs =
        if decide (k <> [] /\ k ∈ key_of a <$> V
                   /\ barcode_to_image st !! k = None)
        then 1%nat else 0%nat)
  /\ (forall k, (requests_for k evs
                 <= lookups_of k evs
                    * (length OPEN_FACTS_SOURCES * Z.to_nat (retries a)))%nat)
  /\ (checkpoint_every a <= 0 -> Forall (fun e => is_write e = false) evs).

(** *** Vocabulary of the run-level statements *)

Section RunVocabulary.
Variable int_of_str : str -> option Z.

(** Where the loop of this run starts. *)
Definition start_index (a : args) (w : world) : Z :=
  start_index_of int_of_str (resume a) (ckpt_path w).

(** The input rows this run works on, in order. *)
Definition processed_rows (a : args) (fieldnames : list str)
    (rows : list row) (w : world) : list row :=
  if bool_decide (barcode_col a ∈ fieldnames) then
    let rows' := apply_limit (limit a) rows in
    visited rows' (py_range (start_index a w) (Z.of_nat (length rows')))
  else [].

(** The checkpoint on disk: where a resumed run would start. *)
Definition checkpoint_of (w : world) : Z :=
  load_checkpoint int_of_str (ckpt_path w).
End RunVocabulary.

(** The data rows found in the output file that this run keeps: a run that
    does not resume starts the file afresh. *)
Definition rows_kept (a : args) (w : world) : Z :=
  if resume a then data_rows (progress_csv w) else 0.

Definition count_of (ph : phase) : Z :=
  match ph with Idle _ c | Appended c => c end.

(** The data rows the file is sure to hold after the next write. *)
Definition survivors (ph : phase) (w : world) : Z :=
  match ph with
  | Idle true _ => 0
  | Idle false _ | Appended _ => data_rows (progress_csv w)
  end.

(** ** Concrete inputs of the examples *)

(** A network on which every product is unknown. *)
Definition always_404 : nat -> str -> str -> http_result :=
  fun _ _ _ => Response 404 None.

(** The examples hold no checkpoint whose count is a string, so [int] on
    strings is never consulted by them. *)
Definition int_rejecting : str -> option Z := fun _ => None.

Definition barcode : str := py "barcode".

(** A row whose barcode cell is [code]. *)
Definition row_of (code : string) : row := [(barcode, Some (py code))].

(** A row of an input file that already has an "image_url" column. *)
Definition row_with_image : row :=
  [(barcode, Some (py "n/a")); (image_url, Some (py "old.jpg"))].

(** [process_csv(..., checkpoint_every=every, resume=resume)] with two
    attempts per source. *)
Definition args_of (every : Z) (resume : bool) : args :=
  Args barcode (1 # 5) 2 None every resume.

(** No output file, no checkpoint file. *)
Definition fresh : world := World always_404 0 None None.

(** The checkpoint file of [w] overwritten with text that is not JSON. *)
Definition corrupted (w : world) : world :=
  World (network w) (requests_sent w) (progress_csv w) (Some NotJson).

(** No output file, and a checkpoint file that says [count]. *)
Definition checkpoint_only (count : Z) : world :=
  World always_404 0 None (Some (ckpt_record count)).

Definition openfoodfacts_host : str := py "world.openfoodfacts.org".
Definition unknown_barcode : str := py "999999".

Definition known_barcode : str := py "012345".

(** The answer of a source that knows the product. *)
Definition known_product : json :=
  JDict [ (py "status", JInt 1);
          (py "product",
           JDict [(py "image_url", JStr (py " http://img/1.jpg "))]) ].

(** A network on which exactly one product is known. *)
Definition one_product_network : nat -> str -> str -> http_result :=
  fun _ _ b =>
    if decide (b = known_barcode) then Response 200 (Some known_product)
    else Response 404 None.

(** ** Vocabulary of the further properties *)

(** A request that brought no image, or an event that is no request. *)
Definition fruitless (e : event) : Prop :=
  match e with
  | EvRequest _ _ r => image_of (product_of_response r) = None
  | _ => True
  end.

Definition is_any_request (e : event) : bool :=
  match e with EvRequest _ _ _ => true | _ => false end.

(** The same arguments, with [resume=True]. *)
Definition resuming (a : args) : args :=
  Args (barcode_col a) (per_source_delay_s a) (retries a) (limit a)
       (checkpoint_every a) true.

(** The sources answer a request the same whenever it is sent. *)
Definition stationary (w : world) : Prop :=
  forall n m host b, network w n host b = network w m host b.

(** Two worlds with the same network. *)
Definition same_network (w1 w2 : world) : Prop :=
  forall n host b, network w1 n host b = network w2 n host b.

(** The image a lookup of key [k] finds on [w]. *)
Definition lookup_on (a : args) (w : world) (k : str) : option str :=
  match outcome_of (find_image_url_zero_cost k (per_source_delay_s a)
                      (retries a)) w with
  | Ok found => found.1
  | Raise _ => None
  end.

(** The row [process_csv] makes of [r] when its key is looked up on [w]. *)
Definition enriched_on (a : args) (w : world) (r : row) : row :=
  enrich r (if str_truthy (key_of a r) then lookup_on a w (key_of a r) else None).

(** An interruption strikes at a quiet point when it does not fall between
    an append and the checkpoint write that follows it. *)
Definition quiet (pre : list event) : Prop :=
  forall pre' mode header batch, pre <> pre' ++ [EvAppendRows mode header batch].

(** A URL is presentable when it is not empty and has no white space at
    either end. *)
Definition presentable (url : str) : Prop :=
  url <> []
  /\ (forall c, head url = Some c -> isspace c = false)
  /\ (forall c, last url = Some c -> isspace c = false).

(** What the output file holds once the rows [rw] have been written, [old]
    being the file found by a scan in phase [ph]. *)
Definition file_after (fields : list str) (ph : phase)
    (old : option (list csv_record)) (rw : list row)
    : option (list csv_record) :=
  match rw with
  | [] => old
  | _ :: _ =>
      Some (match ph with
            | Idle true _ => [HeaderRecord fields]
            | _ => default [] old
            end ++ List.map DataRecord rw)
  end.

(** The cache holds what a lookup on [w0] finds. *)
Definition cache_on (a : args) (w0 : world)
    (cache : gmap str (option str * option str)) : Prop :=
  forall k v, cache !! k = Some v -> v.1 = lookup_on a w0 k.

(** * html_barcode_image_fetcher.py: the lookups on the two product sites

    The second module fetches HTML pages instead of JSON, so it has a world
    and events of its own; the monad is the same.  BeautifulSoup is an
    interface: the parsers are defined over the operations the module calls
    on it, which are taken to return.  The part of [extract_go_upc_details]
    that walks the document for a description stays a parameter, taken to
    return as well.  The delay of the lookups is not negative. *)
Module html_fetcher.

(** What [requests.get] did. *)
Inductive page_result :=
| GetFailed                           (* raised requests.RequestException *)
| Page (status_code : Z) (text : str).

Inductive event :=
| EvGet (url : str) (r : page_result)
| EvSleep (d : Q)
| EvMakedirs
| EvAppendRows (mode : open_mode) (header : option (list str)) (batch : list row)
| EvCheckpoint (count : Z).

(** [network n url] is the outcome of the request for [url] when [n]
    requests have been sent before it. *)
Record world := World {
  network : nat -> str -> page_result;
  requests_sent : nat;
  progress_csv : option (list csv_record);
  ckpt_path : option ckpt_content }.

Definition apply_event (w : world) (e : event) : world :=
  match e with
  | EvGet _ _ =>
      World (network w) (S (requests_sent w)) (progress_csv w) (ckpt_path w)
  | EvAppendRows mode header batch =>
      World (network w) (requests_sent w)
            (Some (written mode header batch (progress_csv w))) (ckpt_path w)
  | EvCheckpoint count =>
      World (network w) (requests_sent w) (progress_csv w)
            (Some (ckpt_record count))
  | EvSleep _ | EvMakedirs => w
  end.

Definition replay (w : world) (evs : list event) : world :=
  foldl apply_event w evs.

Definition M (A : Type) : Type := world -> result A * world * list event.

Definition ret {A} (a : A) : M A := fun w => (Ok a, w, []).

Definition bind {A B} (c : M A) (k : A -> M B) : M B := fun w =>
  match c w with
  | (Ok a, w1, evs1) =>
      match k a w1 with (r, w2, evs2) => (r, w2, evs1 ++ evs2) end
  | (Raise e, w1, evs1) => (Raise e, w1, evs1)
  end.

Definition raise {A} (e : exn) : M A := fun w => (Raise e, w, []).

Definition emit (e : event) : M unit := fun w => (Ok tt, apply_event w e, [e]).

Definition get_world : M world := fun w => (Ok w, w, []).

Declare Scope html_scope.
Notation "x <- c ;; k" := (bind c (fun x => k))
  (at level 100, c at next level, right associativity) : html_scope.
Notation "c ;; k" := (bind c (fun _ => k))
  (at level 100, right associativity) : html_scope.
#[local] Open Scope html_scope.

Fixpoint for_each {S A} (body : S -> A -> M S) (l : list A) (s : S) : M S :=
  match l with
  | [] => ret s
  | a :: l' => s' <- body s a ;; for_each body l' s'
  end.

Definition outcome_of {A} (c : M A) (w : world) : result A := (c w).1.1.
Definition world_after {A} (c : M A) (w : world) : world := (c w).1.2.
Definition events_of {A} (c : M A) (w : world) : list event := (c w).2.

(** ** _get *)

(** [requests.get(url, headers=headers, timeout=timeout)]; the text of the
    page unless the status is an error or the request raised. *)
Definition _get (url : str) : M (option str) := fun w =>
  let resp := network w (requests_sent w) url in
  (Ok match resp with
      | Page status_code text =>
          if 400 <=? status_code then None else Some text
      | GetFailed => None
      end,
   apply_event w (EvGet url resp), [EvGet url resp]).

(** ** parse_image_candidates *)

(** [sub in s] *)
Fixpoint starts_with (sub s : str) : bool :=
  match sub, s with
  | [], _ => true
  | _ :: _, [] => false
  | x :: sub', y :: s' => (x =? y)%N && starts_with sub' s'
  end.

Fixpoint contains (sub s : str) : bool :=
  starts_with sub s
  || match s with
     | [] => false
     | _ :: s' => contains sub s'
     end.

(** The double quote of the attribute selectors. *)
Definition quoted (s : string) : str := [34%N] ++ py s ++ [34%N].

Definition og_image_selector : str :=
  py "meta[property=" ++ quoted "og:image" ++ py "], meta[name="
  ++ quoted "og:image" ++ py "]".

Definition image_selectors : list str :=
  [ py "img#product-image";
    py "img.product-img";
    py "img.product-image";
    py "img.main-image";
    py "img[itemprop='image']";
    py "div.product-image img";
    py "figure img" ].

(** The loop "Deduplicate preserving order": [seen] and [unique] after
    one more [url]. *)
Definition dedupe_step (st : gset str * list str) (url : str)
    : gset str * list str :=
  if bool_decide (url ∈ st.1) then st
  else ({[url]} ∪ st.1, st.2 ++ [url]).

Definition dedupe (candidates : list str) : list str :=
  (foldl dedupe_step (∅, []) candidates).2.

(** The text of an answer that [lookup_go_upc] and [lookup_barcode_lookup]
    hand to their parser: none when the request failed, the status is an
    error, or the text is empty. *)
Definition text_of (r : page_result) : option str :=
  match r with
  | Page status_code (c :: t) =>
      if 400 <=? status_code then None else Some (c :: t)
  | _ => None
  end.

Section Parsing.

(** BeautifulSoup as the module uses it: [BeautifulSoup(html,
    "html.parser")], [soup.select(selector)], [soup.find_all(name)] and
    [tag.get(attribute)]. *)
Context {soup tag : Type}.
Variable BeautifulSoup : str -> soup.
Variable select : soup -> str -> list tag.
Variable find_all : soup -> str -> list tag.
Variable get : tag -> str -> option str.

(** [img.get("src") or img.get("data-src")] *)
Definition src_of (img : tag) : option str :=
  match get img (py "src") with
  | Some (c :: s) => Some (c :: s)
  | _ => get img (py "data-src")
  end.

(** [if v and v.strip(): candidates.append(v.strip())] *)
Definition stripped (v : option str) : list str :=
  match v with
  | Some (c :: s) => if str_truthy (strip (c :: s)) then [strip (c :: s)] else []
  | _ => []
  end.

(** The body of the loop over all images: the stripped source when it
    embeds [marker]. *)
Definition embedding (marker : str) (img : tag) : list str :=
  List.filter (fun s => str_truthy marker && contains marker s)
              (stripped (src_of img)).

(** The candidates in the order the three loops append them. *)
Definition candidates_of (html barcode : str) : list str :=
  let soup := BeautifulSoup html in
  flat_map (fun meta => stripped (get meta (py "content")))
           (select soup og_image_selector)
  ++ flat_map (fun selector =>
                 flat_map (fun img => stripped (src_of img))
                          (select soup selector))
              image_selectors
  ++ flat_map (embedding barcode) (find_all soup (py "img")).

Definition parse_image_candidates (html base_url barcode : str) : list str :=
  dedupe (candidates_of html barcode).

(** ** extract_go_upc_details *)

(** The description found under the "Description" heading of the page. *)
Variable description_of : soup -> option str.

Definition extract_go_upc_details (html barcode : str)
    : list str * option str :=
  let soup := BeautifulSoup html in
  let imgs := flat_map (embedding (py "go-upc.s3.amazonaws.com"))
                       (find_all soup (py "img")) in
  let imgs := match imgs with
              | [] => parse_image_candidates html (py "https://go-upc.com")
                                             barcode
              | _ :: _ => imgs
              end in
  (imgs, description_of soup).

(** What the two parsers make of an answer. *)
Definition candidates_in (url barcode : str) (r : page_result) : list str :=
  match text_of r with
  | Some html => parse_image_candidates html url barcode
  | None => []
  end.

Definition details_in (barcode : str) (r : page_result)
    : list str * option str :=
  match text_of r with
  | Some html => extract_go_upc_details html barcode
  | None => ([], None)
  end.

(** ** lookup_go_upc, lookup_barcode_lookup *)

(** Truth value of [imgs or desc]. *)
Definition found_something (imgs : list str) (desc : option str) : bool :=
  match imgs, desc with
  | _ :: _, _ => true
  | [], Some (_ :: _) => true
  | [], _ => false
  end.

(** [for attempt in range(n)] of [lookup_go_upc]. *)
Fixpoint go_upc_attempts (url barcode : str) (delay_s : Q) (n : nat)
    : M (list str * option str) :=
  match n with
  | O => ret ([], None)
  | S n' =>
      html <- _get url ;;
      let next := (emit (EvSleep delay_s) ;;
                   go_upc_attempts url barcode delay_s n') in
      match html with
      | Some (c :: t) =>
          let found := extract_go_upc_details (c :: t) barcode in
          if found_something found.1 found.2 then ret found else next
      | _ => next
      end
  end.

Definition go_upc_url (barcode : str) : str :=
  py "https://go-upc.com/lookup/" ++ barcode.

Definition lookup_go_upc (barcode : str) (delay_s : Q) (retries : Z)
    : M (list str * option str) :=
  go_upc_attempts (go_upc_url barcode) barcode delay_s (Z.to_nat (retries + 1)).

(** [for attempt in range(n)] of [lookup_barcode_lookup]. *)
Fixpoint barcode_lookup_attempts (url barcode : str) (delay_s : Q) (n : nat)
    : M (list str) :=
  match n with
  | O => ret []
  | S n' =>
      html <- _get url ;;
      let next := (emit (EvSleep delay_s) ;;
                   barcode_lookup_attempts url barcode delay_s n') in
      match html with
      | Some (c :: t) =>
          match parse_image_candidates (c :: t) url barcode with
          | u :: imgs => ret (u :: imgs)
          | [] => next
          end
      | _ => next
      end
  end.

Definition barcode_lookup_url (barcode : str) : str :=
  py "https://www.barcodelookup.com/" ++ barcode.

Definition lookup_barcode_lookup (barcode : str) (delay_s : Q) (retries : Z)
    : M (list str) :=
  barcode_lookup_attempts (barcode_lookup_url barcode) barcode delay_s
                          (Z.to_nat (retries + 1)).

(** ** find_images_from_sites *)

(** The dictionary [results]. *)
Record results := Results {
  go_upc : list str;
  go_upc_description : option str;
  barcode_lookup : list str }.

(** The defaults of the two lookups: [delay_s=0.6], [retries=1]. *)
Definition default_delay_s : Q := 3 # 5.
Definition default_retries : Z := 1.

Definition find_images_from_sites (barcode : option str) : M results :=
  let b := html_barcode_image_fetcher.normalize_barcode barcode in
  if str_truthy b then
    go <- lookup_go_upc b default_delay_s default_retries ;;
    imgs <- lookup_barcode_lookup b default_delay_s default_retries ;;
    ret (Results go.1 go.2 imgs)
  else ret (Results [] None []).

(** ** enrich_csv *)

(** The keyword arguments of [enrich_csv] that drive the run; [input_csv]
    is what csv.DictReader reads from it, [output_csv] and [out_dir] only
    name the two files of the [world], [verbose] only prints. *)
Record args := Args {
  barcode_col : str;
  limit : option Z;
  checkpoint_every : Z;
  resume : bool }.

Record loop_state := LoopState {
  processed_count : Z;
  pending_batch : list row;
  needs_header : bool }.

Definition image_url_go_upc : str := py "image_url_go_upc".
Definition image_url_barcode_lookup : str := py "image_url_barcode_lookup".
Definition description_go_upc : str := py "description_go_upc".

(** [if name not in out_fields: out_fields.append(name)] *)
Definition with_field (name : str) (out_fields : list str) : list str :=
  if bool_decide (name ∈ out_fields) then out_fields
  else out_fields ++ [name].

Definition out_fields_of (fieldnames : list str) : list str :=
  with_field description_go_upc
    (with_field image_url_barcode_lookup
       (with_field image_url_go_upc fieldnames)).

(** [urls[0] if urls else ""] *)
Definition first_or_empty (urls : list str) : str :=
  match urls with
  | u :: _ => u
  | [] => []
  end.

(** [row_out] *)
Definition row_out_of (r : row) (urls : results) : row :=
  dict_set
    (dict_set
       (dict_set r image_url_go_upc (Some (first_or_empty (go_upc urls))))
       image_url_barcode_lookup (Some (first_or_empty (barcode_lookup urls))))
    description_go_upc (Some (default [] (go_upc_description urls))).

Definition append_rows (out_fields : list str) (needs_header : bool)
    (batch : list row) : M bool :=
  let mode := if needs_header then ModeW else ModeA in
  emit (EvAppendRows mode (if needs_header then Some out_fields else None)
                     batch) ;;
  ret false.

Definition commit (out_fields : list str) (st : loop_state) : M loop_state :=
  needs_header' <- append_rows out_fields (needs_header st)
                               (pending_batch st) ;;
  emit (EvCheckpoint (processed_count st)) ;;
  ret (LoopState (processed_count st) [] needs_header').

(** The body of [for idx in range(start_index, total)]. *)
Definition enrich_row (a : args) (out_fields : list str) (rows : list row)
    (st : loop_state) (idx : Z) : M loop_state :=
  match py_index rows idx with
  | None => raise IndexError
  | Some r =>
      let raw := default (Some []) (dict_get r (barcode_col a)) in
      let b := html_barcode_image_fetcher.normalize_barcode raw in
      urls <- find_images_from_sites (Some b) ;;
      let st' := LoopState (processed_count st + 1)
                           (pending_batch st ++ [row_out_of r urls])
                           (needs_header st) in
      if (0 <? checkpoint_every a)
         && (processed_count st' mod checkpoint_every a =? 0)
      then commit out_fields st'
      else ret st'
  end.

Variable int_of_str : str -> option Z.

Definition enrich_csv (a : args) (fieldnames : list str) (rows : list row)
    : M unit :=
  if bool_decide (barcode_col a ∈ fieldnames) then
    let rows := apply_limit (limit a) rows in
    let out_fields := out_fields_of fieldnames in
    emit EvMakedirs ;;
    w <- get_world ;;
    let start_index := start_index_of int_of_str (resume a) (ckpt_path w) in
    let needs_header := initial_needs_header (resume a) (progress_csv w) in
    let total := Z.of_nat (length rows) in
    st <- for_each (enrich_row a out_fields rows)
                   (py_range start_index total)
                   (LoopState start_index [] needs_header) ;;
    match pending_batch st with
    | [] => ret tt
    | _ :: _ => commit out_fields st ;; ret tt
    end
  else raise ValueError.

(** The input rows a run works on, in order. *)
Definition processed_rows (a : args) (fieldnames : list str)
    (rows : list row) (w : world) : list row :=
  if bool_decide (barcode_col a ∈ fieldnames) then
    let rows' := apply_limit (limit a) rows in
    visited rows' (py_range (start_index_of int_of_str (resume a) (ckpt_path w))
                            (Z.of_nat (length rows')))
  else [].

End Parsing.

(** ** Observations *)

Definition is_get_to (url : str) (e : event) : bool :=
  match e with
  | EvGet url' _ => bool_decide (url' = url)
  | _ => false
  end.

Definition is_get (e : event) : bool :=
  match e with EvGet _ _ => true | _ => false end.

(** One failed attempt on [url]: the request and the sleep after it. *)
Definition failed_attempts (url : str) (d : Q) (rs : list page_result)
    : list event :=
  flat_map (fun r => [EvGet url r; EvSleep d]) rs.

(** The number of requests for [url]. *)
Definition gets_to (url : str) (evs : list event) : nat :=
  length (List.filter (is_get_to url) evs).

(** The key of an input row. *)
Definition key_of (a : args) (r : row) : str :=
  html_barcode_image_fetcher.normalize_barcode
    (default (Some []) (dict_get r (barcode_col a))).

End html_fetcher.

(** ** A page model for the examples

    The text of a page is the content of its only og:image meta element;
    the page has no other element and no description. *)
Definition one_meta_select (soup selector : str) : list str :=
  if decide (selector = html_fetcher.og_image_selector) then [soup] else [].

Definition no_tag (soup name : str) : list str := [].

Definition content_of (tag attribute : str) : option str :=
  if decide (attribute = py "content") then Some tag else None.

Definition no_description (soup : str) : option str := None.

(** A network on which every page is the same one. *)
Definition image_page : nat -> str -> html_fetcher.page_result :=
  fun _ _ => html_fetcher.Page 200 (py " http://img/1.jpg ").

(** No output file, no checkpoint file. *)
Definition html_fresh : html_fetcher.world :=
  html_fetcher.World image_page 0 None None.

(** [enrich_csv(..., checkpoint_every=every, resume=resume)] on these
    pages. *)
Definition enrich_csv_on_pages (every : Z) (resume : bool)
    : list str -> list row -> html_fetcher.M unit :=
  html_fetcher.enrich_csv id one_meta_select no_tag content_of no_description
    int_rejecting (html_fetcher.Args barcode None every resume).

(** * Properties *)

(** ** The monad *)

Lemma events_bind {A B} (c : M A) (k : A -> M B) w :
  events_of (bind c k) w =
  events_of c w ++ match outcome_of c w with
                   | Ok x => events_of (k x) (world_after c w)
                   | Raise _ => []
                   end.
Proof.
  unfold events_of, outcome_of, world_after, bind.
  destruct (c w) as [[[x|e] w1] evs1]; simpl.
  - by destruct (k x w1) as [[r w2] evs2].
  - by rewrite app_nil_r.
Qed.

Lemma outcome_bind {A B} (c : M A) (k : A -> M B) w :
  outcome_of (bind c k) w =
  match outcome_of c w with
  | Ok x => outcome_of (k x) (world_after c w)
  | Raise e => Raise e
  end.
Proof.
  unfold outcome_of, world_after, bind.
  destruct (c w) as [[[x|e] w1] evs1]; simpl; [|done].
  by destruct (k x w1) as [[r w2] evs2].
Qed.

Lemma world_bind {A B} (c : M A) (k : A -> M B) w :
  world_after (bind c k) w =
  match outcome_of c w with
  | Ok x => world_after (k x) (world_after c w)
  | Raise e => world_after c w
  end.
Proof.
  unfold outcome_of, world_after, bind.
  destruct (c w) as [[[x|e] w1] evs1]; simpl; [|done].
  by destruct (k x w1) as [[r w2] evs2].
Qed.

Lemma events_ret {A} (x : A) w : events_of (ret x) w = [].
Proof. done. Qed.

Lemma replay_app w evs1 evs2 :
  replay w (evs1 ++ evs2) = replay (replay w evs1) evs2.
Proof. apply foldl_app. Qed.

Lemma sound_ret {A} (x : A) : sound (ret x).
Proof. done. Qed.

Lemma sound_raise {A} e : sound (@raise A e).
Proof. done. Qed.

Lemma sound_emit e : sound (emit e).
Proof. done. Qed.

Lemma sound_get_world : sound get_world.
Proof. done. Qed.

Lemma sound_requests_get host barcode : sound (requests_get host barcode).
Proof. done. Qed.

Lemma sound_bind {A B} (c : M A) (k : A -> M B) :
  sound c -> (forall x, sound (k x)) -> sound (bind c k).
Proof.
  intros Hc Hk w. rewrite world_bind, events_bind, replay_app, <- Hc.
  destruct (outcome_of c w) as [x|e]; [apply Hk | done].
Qed.

Lemma sound_for_each {S A} (body : S -> A -> M S) l :
  (forall s x, sound (body s x)) -> forall s, sound (for_each body l s).
Proof.
  intros Hbody. induction l as [|x l IH]; intros s; simpl.
  - apply sound_ret.
  - apply sound_bind; auto.
Qed.

Create HintDb sound discriminated.
#[local] Hint Resolve sound_ret sound_raise sound_emit sound_get_world
  sound_requests_get sound_bind : sound.

Lemma sound_attempts barcode host source d n :
  sound (attempts barcode host source d n).
Proof.
  induction n as [|n IH]; simpl; [apply sound_ret|].
  apply sound_bind; [unfold fetch_openfacts_product; auto with sound|].
  intros product. destruct (image_of product); auto with sound.
Qed.

Lemma sound_try_sources barcode d retries sources :
  sound (try_sources barcode d retries sources).
Proof.
  induction sources as [|[host source] rest IH]; simpl; [apply sound_ret|].
  apply sound_bind; [apply sound_attempts|].
  intros [[img src]|]; auto with sound.
Qed.

Lemma sound_find barcode d retries :
  sound (find_image_url_zero_cost barcode d retries).
Proof.
  unfold find_image_url_zero_cost.
  apply sound_bind; [apply sound_emit | intros; apply sound_try_sources].
Qed.

Lemma sound_commit fields st : sound (commit fields st).
Proof. unfold commit, append_rows. auto 10 with sound. Qed.

Lemma sound_resolve a norm cache : sound (resolve a norm cache).
Proof.
  unfold resolve. destruct (str_truthy norm); [|apply sound_ret].
  apply sound_bind; [|auto with sound].
  destruct (cache !! norm); [apply sound_ret|].
  apply sound_bind; [apply sound_find | auto with sound].
Qed.

Lemma sound_process_row a fields rows st idx :
  sound (process_row a fields rows st idx).
Proof.
  unfold process_row. destruct (py_index rows idx); [|apply sound_raise].
  apply sound_bind; [apply sound_resolve|].
  intros res. case_match; [apply sound_commit | apply sound_ret].
Qed.

Lemma sound_process_csv int_of_str a fieldnames rows :
  sound (process_csv int_of_str a fieldnames rows).
Proof.
  unfold process_csv. case_bool_decide; [|apply sound_raise].
  apply sound_bind; [apply sound_emit|]. intros _.
  apply sound_bind; [apply sound_get_world|]. intros w.
  apply sound_bind.
  - apply sound_for_each. intros. apply sound_process_row.
  - intros st. destruct (pending_batch st); [apply sound_ret|].
    apply sound_bind; [apply sound_commit | auto with sound].
Qed.

(** ** One source's attempt sequence *)

Lemma network_replay w evs : network (replay w evs) = network w.
Proof.
  revert w. induction evs as [|e evs IH]; intros w; [done|].
  simpl. rewrite IH. by destruct e.
Qed.

Lemma answers_S w host barcode n :
  answers w host barcode (S n) =
  network w (requests_sent w) host barcode ::
  answers (apply_event w (EvRequest host barcode
             (network w (requests_sent w) host barcode))) host barcode n.
Proof.
  unfold answers. simpl. f_equal; [by rewrite Nat.add_0_r|].
  rewrite <- seq_shift, List.map_map. apply List.map_ext. intros i.
  by rewrite Nat.add_succ_r.
Qed.

Lemma length_answers w host barcode n : length (answers w host barcode n) = n.
Proof. unfold answers. by rewrite length_map, length_seq. Qed.

Lemma attempts_events barcode host source d n w :
  events_of (attempts barcode host source d n) w =
  attempt_events barcode host d (answers w host barcode n).
Proof.
  revert w. induction n as [|n IH]; intros w; [done|].
  rewrite answers_S. cbn [attempts attempt_events].
  rewrite events_bind. unfold fetch_openfacts_product at 1 2 3.
  cbn -[attempts apply_event image_of product_of_response].
  destruct (image_of _); [done|].
  rewrite events_bind. cbn -[attempts apply_event].
  change (apply_event ?x (EvSleep d)) with x. by rewrite IH.
Qed.

Lemma attempts_outcome barcode host source d n w :
  outcome_of (attempts barcode host source d n) w =
  Ok (match list_find (fun r => is_Some (image_of (product_of_response r)))
                      (answers w host barcode n) with
      | Some (_, r) =>
          (fun img => (img, source)) <$> image_of (product_of_response r)
      | None => None
      end).
Proof.
  revert w. induction n as [|n IH]; intros w; [done|].
  rewrite answers_S. cbn [attempts list_find].
  rewrite outcome_bind. unfold fetch_openfacts_product at 1 2.
  cbn -[attempts apply_event image_of product_of_response].
  destruct (image_of _) as [img|] eqn:Himg.
  - rewrite decide_True by eauto. simpl. by rewrite Himg.
  - rewrite decide_False by (by intros [? ?]).
    rewrite outcome_bind. cbn -[attempts apply_event].
    change (apply_event ?x (EvSleep d)) with x. rewrite IH.
    by destruct (list_find _ _) as [[i r]|].
Qed.

(** Where a request or a sleep stands in the events of an attempt
    sequence. *)
Lemma attempt_events_inv barcode host d ans pre e post :
  attempt_events barcode host d ans = pre ++ e :: post ->
  match e with
  | EvRequest h k r =>
      h = host /\ k = barcode /\
      match image_of (product_of_response r) with
      | None => exists post', post = EvSleep d :: post'
      | Some _ => post = []
      end
  | EvSleep d' =>
      d' = d /\ exists pre' r, pre = pre' ++ [EvRequest host barcode r] /\
                               image_of (product_of_response r) = None
  | _ => False
  end.
Proof.
  revert pre. induction ans as [|r0 ans IH]; intros pre Heq.
  { by destruct pre. }
  cbn [attempt_events] in Heq.
  destruct pre as [|e0 pre].
  { simplify_eq/=. repeat split. destruct (image_of _); eauto. }
  simplify_eq/=. destruct (image_of (product_of_response r0)) eqn:Himg.
  { by destruct pre. }
  destruct pre as [|e1 pre].
  { simplify_eq/=. split; [done|]. by exists [], r0. }
  simplify_eq/=. apply IH in H0. destruct e; try done.
  destruct H0 as [-> (pre' & r & -> & Hr)]. split; [done|].
  by exists (EvRequest host barcode r0 :: EvSleep d :: pre'), r.
Qed.

(** After an attempt without image the next attempt follows the sleep, as
    long as attempts remain. *)
Lemma attempt_events_retry barcode host d ans pre r post :
  attempt_events barcode host d ans = pre ++ EvRequest host barcode r :: post ->
  image_of (product_of_response r) = None ->
  (requests_for barcode pre + 1 < length ans)%nat ->
  exists r' post', post = EvSleep d :: EvRequest host barcode r' :: post'.
Proof.
  revert pre. induction ans as [|r0 ans IH]; intros pre Heq Himg Hlt.
  { by destruct pre. }
  cbn [attempt_events] in Heq.
  destruct pre as [|e0 pre].
  { simplify_eq/=. rewrite Himg in *. destruct ans as [|r1 ans]; [simpl in *; lia|].
    simpl. eauto. }
  simplify_eq/=. destruct (image_of (product_of_response r0)) eqn:Himg0.
  { by destruct pre. }
  destruct pre as [|e1 pre]; [done|]. simplify_eq/=.
  eapply IH; [done..|].
  unfold requests_for in *. simpl in Hlt.
  rewrite bool_decide_true in Hlt by done. simpl in Hlt. lia.
Qed.

(** Without an image in any answer, every attempt is made. *)
Lemma attempt_events_imageless barcode host d ans :
  Forall (fun r => image_of (product_of_response r) = None) ans ->
  attempt_events barcode host d ans =
  flat_map (fun r => [EvRequest host barcode r; EvSleep d]) ans.
Proof.
  induction 1 as [|r ans Hr _ IH]; [done|].
  cbn [attempt_events flat_map]. rewrite Hr, IH. done.
Qed.

(** ** One lookup *)

Lemma attempt_events_of_attempts k host d ans :
  Forall (of_attempts k) (attempt_events k host d ans).
Proof.
  induction ans as [|r ans IH]; cbn [attempt_events]; [done|].
  constructor; [done|]. destruct (image_of _); [done|]. by constructor.
Qed.

Lemma requests_for_app k evs1 evs2 :
  requests_for k (evs1 ++ evs2) = (requests_for k evs1 + requests_for k evs2)%nat.
Proof. unfold requests_for. by rewrite List.filter_app, length_app. Qed.

Lemma lookups_of_app k evs1 evs2 :
  lookups_of k (evs1 ++ evs2) = (lookups_of k evs1 + lookups_of k evs2)%nat.
Proof. unfold lookups_of. by rewrite List.filter_app, length_app. Qed.

Lemma requests_for_attempt_events k k' host d ans :
  (requests_for k' (attempt_events k host d ans) <= length ans)%nat.
Proof.
  induction ans as [|r ans IH]; cbn [attempt_events]; [done|].
  unfold requests_for in *. simpl.
  destruct (image_of _); case_bool_decide; simpl; lia.
Qed.

Lemma try_sources_events_of_attempts k d retries sources w :
  Forall (of_attempts k) (events_of (try_sources k d retries sources) w).
Proof.
  revert w. induction sources as [|[host source] rest IH]; intros w; [done|].
  cbn [try_sources]. rewrite events_bind, attempts_events.
  apply Forall_app. split; [apply attempt_events_of_attempts|].
  rewrite attempts_outcome.
  destruct (list_find _ _) as [[i r]|]; [|apply IH].
  destruct (image_of _); simpl; [done | apply IH].
Qed.

Lemma try_sources_requests k k' d retries sources w :
  (requests_for k' (events_of (try_sources k d retries sources) w)
   <= length sources * Z.to_nat retries)%nat.
Proof.
  revert w. induction sources as [|[host source] rest IH]; intros w; [done|].
  cbn [try_sources length]. rewrite Nat.mul_succ_l.
  rewrite events_bind, attempts_events, requests_for_app.
  pose proof (requests_for_attempt_events k k' host d
                (answers w host k (Z.to_nat retries))) as H1.
  rewrite length_answers in H1.
  rewrite attempts_outcome.
  destruct (list_find _ _) as [[i r]|].
  - destruct (image_of _); simpl.
    + rewrite events_ret. change (requests_for k' []) with 0%nat. lia.
    + specialize (IH (world_after (attempts k host source d (Z.to_nat retries)) w)). lia.
  - specialize (IH (world_after (attempts k host source d (Z.to_nat retries)) w)).
    simpl. lia.
Qed.

(** A found image is never the empty string: [if img:]. *)
Lemma image_of_nonempty product img : image_of product = Some img -> img <> [].
Proof.
  unfold image_of. destruct product as [[|kv d]|]; try done.
  destruct (pick_best_image_url _) as [[|c s]|]; try done. by intros [= <-].
Qed.

Lemma try_sources_outcome k d retries sources w :
  exists img src, outcome_of (try_sources k d retries sources) w = Ok (img, src)
                  /\ img <> Some [].
Proof.
  revert w. induction sources as [|[host source] rest IH]; intros w.
  { by exists None, None. }
  cbn [try_sources]. rewrite outcome_bind, attempts_outcome.
  destruct (list_find _ _) as [[i r]|]; [|apply IH].
  destruct (image_of _) as [img|] eqn:Himg; simpl; [|apply IH].
  exists (Some img), (Some source). split; [done|].
  intros [= ->]. by apply image_of_nonempty in Himg.
Qed.

Lemma find_events k d retries w :
  events_of (find_image_url_zero_cost k d retries) w =
  EvLookup k :: events_of (try_sources k d retries OPEN_FACTS_SOURCES) w.
Proof. unfold find_image_url_zero_cost. by rewrite events_bind. Qed.

Lemma find_outcome k d retries w :
  outcome_of (find_image_url_zero_cost k d retries) w =
  outcome_of (try_sources k d retries OPEN_FACTS_SOURCES) w.
Proof. unfold find_image_url_zero_cost. by rewrite outcome_bind. Qed.

Lemma of_attempts_lookups k k' evs :
  Forall (of_attempts k) evs -> lookups_of k' evs = 0%nat.
Proof.
  unfold lookups_of. induction 1 as [|e evs He _ IH]; [done|].
  by destruct e.
Qed.

Lemma of_attempts_requests k k' evs :
  Forall (of_attempts k) evs -> k' <> k -> requests_for k' evs = 0%nat.
Proof.
  intros Hall Hne. unfold requests_for.
  induction Hall as [|e evs He _ IH]; [done|].
  destruct e; simpl in *; try done; subst.
  by rewrite bool_decide_false.
Qed.

Lemma of_attempts_no_write k evs :
  Forall (of_attempts k) evs -> Forall (fun e => is_write e = false) evs.
Proof. intros H. eapply Forall_impl; [done|]. by intros []. Qed.

Lemma find_lookups k k' d retries w :
  lookups_of k' (events_of (find_image_url_zero_cost k d retries) w) =
  if decide (k' = k) then 1%nat else 0%nat.
Proof.
  rewrite find_events.
  change (EvLookup k :: ?l) with ([EvLookup k] ++ l).
  rewrite lookups_of_app.
  rewrite (of_attempts_lookups k k' _
             (try_sources_events_of_attempts k d retries OPEN_FACTS_SOURCES w)).
  unfold lookups_of. simpl. case_decide; subst.
  - by rewrite bool_decide_true.
  - by rewrite bool_decide_false.
Qed.

Lemma find_requests k k' d retries w :
  (requests_for k' (events_of (find_image_url_zero_cost k d retries) w)
   <= (if decide (k' = k) then 1 else 0)
      * (length OPEN_FACTS_SOURCES * Z.to_nat retries))%nat.
Proof.
  rewrite find_events.
  change (EvLookup k :: ?l) with ([EvLookup k] ++ l).
  rewrite requests_for_app. change (requests_for k' [EvLookup k]) with 0%nat.
  case_decide; subst.
  - pose proof (try_sources_requests k k d retries OPEN_FACTS_SOURCES w). lia.
  - rewrite (of_attempts_requests k k' _
               (try_sources_events_of_attempts k d retries OPEN_FACTS_SOURCES w))
      by done. lia.
Qed.

Lemma find_no_write k d retries w :
  Forall (fun e => is_write e = false)
         (events_of (find_image_url_zero_cost k d retries) w).
Proof.
  rewrite find_events. constructor; [done|].
  apply (of_attempts_no_write k), try_sources_events_of_attempts.
Qed.

(** ** The commit protocol *)

Lemma scan_app fields ph evs1 evs2 :
  scan fields ph (evs1 ++ evs2) =
  scan fields ph evs1 ≫= fun ph' => scan fields ph' evs2.
Proof.
  revert ph. induction evs1 as [|e evs1 IH]; intros ph; [done|].
  simpl. destruct (step fields ph e); [apply IH | done].
Qed.

Lemma scan_no_write fields nh c evs :
  Forall (fun e => is_write e = false) evs ->
  scan fields (Idle nh c) evs = Some (Idle nh c).
Proof. induction 1 as [|e evs He _ IH]; [done|]. by destruct e. Qed.

Lemma rows_written_app evs1 evs2 :
  rows_written (evs1 ++ evs2) = rows_written evs1 ++ rows_written evs2.
Proof. apply flat_map_app. Qed.

Lemma rows_written_no_write evs :
  Forall (fun e => is_write e = false) evs -> rows_written evs = [].
Proof. induction 1 as [|e evs He _ IH]; [done|]. by destruct e. Qed.

Lemma commit_events fields st w :
  events_of (commit fields st) w =
  [ EvAppendRows (if needs_header st then ModeW else ModeA)
                 (if needs_header st then Some fields else None)
                 (pending_batch st);
    EvCheckpoint (processed_count st) ].
Proof. done. Qed.

Lemma commit_outcome fields st w :
  outcome_of (commit fields st) w =
  Ok (LoopState (barcode_to_image st) (processed_count st) [] false).
Proof. done. Qed.

Lemma scan_commit fields nh c batch n :
  batch <> [] -> n = c + Z.of_nat (length batch) ->
  scan fields (Idle nh c)
    [ EvAppendRows (if nh then ModeW else ModeA)
                   (if nh then Some fields else None) batch;
      EvCheckpoint n ]
  = Some (Idle false n).
Proof.
  intros Hb ->. destruct batch as [|r batch]; [done|].
  cbn [scan step]. rewrite bool_decide_true by done.
  cbn [step]. by rewrite bool_decide_true.
Qed.

(** ** One row *)

Lemma str_truthy_spec (s : str) : str_truthy s = true <-> s <> [].
Proof. by destruct s. Qed.

Lemma resolve_spec a k cache w :
  exists cache',
    outcome_of (resolve a k cache) w = Ok (cache', img_url_of cache' k)
    /\ (k = [] -> cache' = cache)
    /\ (forall k', k' <> k -> cache' !! k' = cache !! k')
    /\ (forall v, cache !! k = Some v -> cache' !! k = Some v)
    /\ (k <> [] -> cache !! k = None ->
        exists v, cache' !! k = Some v /\ v.1 <> Some [])
    /\ (forall k', lookups_of k' (events_of (resolve a k cache) w) =
                   if decide (k' = k /\ k <> [] /\ cache !! k = None)
                   then 1%nat else 0%nat)
    /\ (forall k', (requests_for k' (events_of (resolve a k cache) w)
                    <= lookups_of k' (events_of (resolve a k cache) w)
                       * (length OPEN_FACTS_SOURCES * Z.to_nat (retries a)))%nat)
    /\ Forall (fun e => is_write e = false) (events_of (resolve a k cache) w).
Proof.
  unfold resolve, img_url_of. destruct (str_truthy k) eqn:Hk.
  2:{ exists cache. apply not_true_iff_false in Hk.
      rewrite str_truthy_spec in Hk. apply dec_stable in Hk.
      split_and!; try done.
      intros k'. rewrite events_ret.
      by rewrite decide_False by (by intros (_ & ? & _)). }
  apply str_truthy_spec in Hk.
  destruct (cache !! k) as [v|] eqn:Hhit.
  - exists cache. rewrite outcome_bind, events_bind. simpl.
    split_and!; try done.
    + by intros v0 [= <-].
    + intros k'. by rewrite decide_False by (by intros (_ & _ & ?)).
  - rewrite outcome_bind, events_bind. rewrite outcome_bind, events_bind.
    rewrite find_outcome.
    destruct (try_sources_outcome k (per_source_delay_s a) (retries a)
                OPEN_FACTS_SOURCES w) as (img & src & -> & Himg).
    exists (<[k := (img, src)]> cache).
    rewrite !events_ret, !app_nil_r. cbn [outcome_of ret fst snd].
    split_and!; try done.
    + intros k' Hne. by rewrite lookup_insert_ne.
    + intros _ _. exists (img, src). by rewrite lookup_insert_eq.
    + intros k'. rewrite find_lookups. apply decide_ext.
      split; [by intros -> | by intros (? & _)].
    + intros k'. rewrite find_lookups. apply find_requests.
    + apply find_no_write.
Qed.

(** ** The loop over the rows *)

Lemma loop_post_nil a fields st : loop_post a fields st [] st [].
Proof.
  unfold loop_post. split_and!; try done.
  - simpl. lia.
  - intros k _ Hin. by apply elem_of_nil in Hin.
  - auto.
  - by rewrite app_nil_r.
  - intros k. rewrite decide_False; [done|]. intros (_ & Hin & _).
    by apply elem_of_nil in Hin.
Qed.

Lemma img_url_of_stable (c1 c2 : gmap str (option str * option str)) k :
  c1 ⊆ c2 -> (k <> [] -> is_Some (c1 !! k)) ->
  img_url_of c1 k = img_url_of c2 k.
Proof.
  intros Hsub Hin. unfold img_url_of.
  destruct (str_truthy k) eqn:Hk; [|done].
  apply str_truthy_spec in Hk. destruct (Hin Hk) as [v Hv].
  rewrite Hv. by rewrite (lookup_weaken _ _ _ _ Hv Hsub).
Qed.

Lemma loop_post_trans a fields st V1 st1 evs1 V2 st2 evs2 :
  loop_post a fields st V1 st1 evs1 ->
  loop_post a fields st1 V2 st2 evs2 ->
  loop_post a fields st (V1 ++ V2) st2 (evs1 ++ evs2).
Proof.
  intros (Hpc1 & Hsub1 & Hoth1 & Hin1 & Hwf1 & Hrows1 & Hscan1 & Hl1 & Hr1 & Hw1)
         (Hpc2 & Hsub2 & Hoth2 & Hin2 & Hwf2 & Hrows2 & Hscan2 & Hl2 & Hr2 & Hw2).
  unfold loop_post. rewrite fmap_app. split_and!.
  - rewrite length_app. lia.
  - by etrans.
  - intros k Hk. rewrite Hoth2, Hoth1; [done|..];
      (destruct Hk as [->|Hk]; [by left | right]);
      intros ?; apply Hk, elem_of_app; auto.
  - intros k Hne [Hk|Hk]%elem_of_app; [|by apply Hin2].
    destruct (Hin1 k Hne Hk) as [v Hv]. exists v.
    by apply (lookup_weaken _ _ _ _ Hv).
  - intros k v Hv. destruct (Hwf2 k v Hv) as [Hv1|?]; [|by right].
    by apply Hwf1.
  - rewrite rows_written_app, <- app_assoc, Hrows2, app_assoc, Hrows1.
    rewrite List.map_app, <- app_assoc. do 2 f_equal.
    apply List.map_ext_in. intros r Hr. f_equal.
    apply img_url_of_stable; [done|]. intros Hne. apply Hin1; [done|].
    apply list_elem_of_fmap_2. by apply list_elem_of_In.
  - rewrite scan_app, Hscan1. simpl. apply Hscan2.
  - intros k. rewrite lookups_of_app, Hl1, Hl2.
    destruct (decide (k = [])) as [->|Hne].
    { rewrite !decide_False; [done|..]; by intros (? & _). }
    destruct (decide (k ∈ key_of a <$> V1)) as [Hk1|Hk1].
    + destruct (Hin1 k Hne Hk1) as [v Hv].
      rewrite (decide_False (P := _ /\ _ /\ barcode_to_image st1 !! k = None));
        [|intros (_ & _ & ?); congruence].
      rewrite Nat.add_0_r.
      destruct (barcode_to_image st !! k) eqn:Hc.
      * rewrite !decide_False; [done|..]; by intros (_ & _ & ?).
      * rewrite !decide_True; [done|..]; split_and!; try done.
        apply elem_of_app; by left.
    + rewrite (decide_False (P := _ /\ k ∈ key_of a <$> V1 /\ _));
        [|by intros (_ & ? & _)].
      rewrite (Hoth1 k) by by right. simpl.
      apply decide_ext. rewrite elem_of_app. tauto.
  - intros k. rewrite requests_for_app, lookups_of_app.
    specialize (Hr1 k). specialize (Hr2 k). lia.
  - intros Hce. apply Forall_app. auto.
Qed.

Lemma process_row_spec a fields rows st idx w r :
  py_index rows idx = Some r ->
  exists st',
    outcome_of (process_row a fields rows st idx) w = Ok st'
    /\ loop_post a fields st [r] st'
                 (events_of (process_row a fields rows st idx) w).
Proof.
  intros Hidx. unfold process_row. rewrite Hidx.
  fold (key_of a r). set (k := key_of a r).
  destruct (resolve_spec a k (barcode_to_image st) w)
    as (cache' & Hout & Hnil & Hne & Hhit & Hmiss & Hl & Hr & Hnw).
  rewrite outcome_bind, events_bind, Hout. cbn [fst snd].
  set (evs_r := events_of (resolve a k (barcode_to_image st)) w) in *.
  set (new := enrich r (img_url_of cache' k)).
  assert (Hsub : barcode_to_image st ⊆ cache').
  { apply map_subseteq_spec. intros k' v Hv.
    destruct (decide (k' = k)) as [->|Hk]; [by apply Hhit|]. by rewrite Hne. }
  assert (Hoth : forall k', k' = [] \/ k' ∉ key_of a <$> [r] ->
                            cache' !! k' = barcode_to_image st !! k').
  { intros k' Hk'. destruct (decide (k' = k)) as [->|Hk]; [|by apply Hne].
    destruct Hk' as [Hk'|Hk']; [by rewrite Hnil|].
    exfalso. apply Hk'. apply list_elem_of_singleton. done. }
  assert (Hin : forall k', k' <> [] -> k' ∈ key_of a <$> [r] ->
                           is_Some (cache' !! k')).
  { intros k' Hk' ->%list_elem_of_singleton. fold k in Hk' |- *.
    destruct (barcode_to_image st !! k) as [v|] eqn:Hc; [by eauto|].
    destruct (Hmiss Hk' eq_refl) as (v & Hv & _). by eauto. }
  assert (Hwf : forall k' v, cache' !! k' = Some v ->
                  barcode_to_image st !! k' = Some v \/ v.1 <> Some []).
  { intros k' v Hv. destruct (decide (k' = k)) as [->|Hk];
      [|left; by rewrite <- Hne].
    destruct (decide (k = [])) as [Hk|Hk]; [left; by rewrite <- (Hnil Hk)|].
    destruct (barcode_to_image st !! k) as [v0|] eqn:Hc.
    - left. rewrite (Hhit v0 eq_refl) in Hv. done.
    - right. destruct (Hmiss Hk eq_refl) as (v' & Hv' & Hok). congruence. }
  assert (Hlk : forall k', lookups_of k' evs_r =
            if decide (k' <> [] /\ k' ∈ key_of a <$> [r]
                       /\ barcode_to_image st !! k' = None)
            then 1%nat else 0%nat).
  { intros k'. rewrite Hl. apply decide_ext.
    rewrite list_fmap_singleton, list_elem_of_singleton. fold k.
    split; [intros (-> & ? & ?) | intros (? & -> & ?)]; done. }
  destruct ((0 <? checkpoint_every a) && _) eqn:Hcond.
  - rewrite commit_outcome, commit_events. eexists. split; [done|].
    cbn [barcode_to_image processed_count pending_batch needs_header].
    unfold loop_post.
    cbn [barcode_to_image processed_count pending_batch needs_header].
    split_and!; try done.
    + rewrite rows_written_app, rows_written_no_write by done.
      simpl. by rewrite !app_nil_r.
    + rewrite scan_app, scan_no_write by done. cbn [mbind option_bind].
      rewrite scan_commit.
      * do 2 f_equal. simpl. lia.
      * by destruct (pending_batch st).
      * rewrite length_app. simpl. lia.
    + intros k'. rewrite lookups_of_app, Hlk.
      change (lookups_of k' [_; _]) with 0%nat. lia.
    + intros k'. rewrite requests_for_app, lookups_of_app.
      change (lookups_of k' [_; _]) with 0%nat.
      change (requests_for k' [_; _]) with 0%nat. specialize (Hr k'). lia.
    + intros Hce. apply andb_true_iff in Hcond as [Hpos%Z.ltb_lt _]. lia.
  - rewrite events_ret, app_nil_r. eexists. split; [done|].
    unfold loop_post.
    cbn [barcode_to_image processed_count pending_batch needs_header].
    split_and!; try done.
    + by rewrite rows_written_no_write.
    + rewrite scan_no_write by done. do 2 f_equal.
      rewrite length_app. simpl. lia.
Qed.

Lemma for_each_spec a fields rows idxs :
  Forall (fun idx => is_Some (py_index rows idx)) idxs ->
  forall st w, exists st',
    outcome_of (for_each (process_row a fields rows) idxs st) w = Ok st'
    /\ loop_post a fields st (visited rows idxs) st'
                 (events_of (for_each (process_row a fields rows) idxs st) w).
Proof.
  induction 1 as [|idx idxs [r Hr] _ IH]; intros st w.
  { exists st. split; [done|]. apply loop_post_nil. }
  destruct (process_row_spec a fields rows st idx w r Hr) as (st1 & Hout1 & Hpost1).
  cbn [for_each visited]. rewrite Hr.
  rewrite outcome_bind, events_bind, Hout1.
  destruct (IH st1 (world_after (process_row a fields rows st idx) w))
    as (st2 & Hout2 & Hpost2).
  exists st2. split; [done|].
  by apply (loop_post_trans _ _ _ [r] st1 _ _ st2).
Qed.

(** ** The whole run *)

Lemma py_range_valid {A} (l : list A) start :
  - Z.of_nat (length l) <= start ->
  Forall (fun idx => is_Some (py_index l idx))
         (py_range start (Z.of_nat (length l))).
Proof.
  intros Hstart. unfold py_range. apply Forall_forall. intros idx Hin.
  apply list_elem_of_In, in_map_iff in Hin as (i & <- & Hi).
  apply in_seq in Hi. unfold py_index.
  destruct (0 <=? start + Z.of_nat i) eqn:Hpos.
  - apply Z.leb_le in Hpos. apply lookup_lt_is_Some. lia.
  - apply Z.leb_gt in Hpos.
    rewrite (proj2 (Z.leb_le _ _)) by lia. apply lookup_lt_is_Some. lia.
Qed.

Lemma py_range_invalid {A} (l : list A) start :
  start < - Z.of_nat (length l) ->
  exists rest, py_range start (Z.of_nat (length l)) = start :: rest
               /\ py_index l start = None.
Proof.
  intros Hstart. unfold py_range.
  destruct (Z.to_nat (Z.of_nat (length l) - start)) as [|m] eqn:Hm; [lia|].
  eexists. split; [simpl; by rewrite Z.add_0_r|].
  unfold py_index.
  rewrite (proj2 (Z.leb_gt _ _)) by lia. by rewrite (proj2 (Z.leb_gt _ _)) by lia.
Qed.

Lemma length_visited_valid {A} (l : list A) idxs :
  Forall (fun idx => is_Some (py_index l idx)) idxs ->
  length (visited l idxs) = length idxs.
Proof.
  induction 1 as [|idx idxs [x Hx] _ IH]; [done|].
  simpl. rewrite Hx. simpl. by rewrite IH.
Qed.

Section Run.
Variable int_of_str : str -> option Z.
Variables (a : args) (fieldnames : list str) (rows : list row) (w : world).

Let run := process_csv int_of_str a fieldnames rows.
Let rows' := apply_limit (limit a) rows.
Let start := start_index_of int_of_str (resume a) (ckpt_path w).
Let nh0 := initial_needs_header (resume a) (progress_csv w).
Let fields := out_fieldnames_of fieldnames.
Let V := visited rows' (py_range start (Z.of_nat (length rows'))).

Lemma process_csv_missing_column :
  barcode_col a ∉ fieldnames ->
  run w = (Raise ValueError, w, []).
Proof.
  intros Hcol. unfold run, process_csv. by rewrite bool_decide_false.
Qed.

Lemma process_csv_events :
  barcode_col a ∈ fieldnames ->
  exists st' loop_evs,
    loop_post a fields (LoopState ∅ start [] nh0) V st' loop_evs
    /\ events_of run w = EvMakedirs :: loop_evs ++ flush_events fields st'.
Proof.
  intros Hcol. unfold run, process_csv. rewrite bool_decide_true by done.
  rewrite events_bind. cbn [outcome_of emit fst snd events_of app].
  rewrite events_bind. cbn [outcome_of get_world fst snd events_of app].
  fold rows' start nh0 fields.
  change (apply_event w EvMakedirs) with w.
  change (world_after (emit EvMakedirs) w) with w.
  change (world_after get_world w) with w.
  rewrite events_bind. fold rows' start nh0 fields.
  set (st0 := LoopState ∅ start [] nh0).
  destruct (decide (- Z.of_nat (length rows') <= start)) as [Hok|Hbad].
  - destruct (for_each_spec a fields rows' _ (py_range_valid rows' start Hok) st0 w)
      as (st' & Hout & Hpost).
    exists st', (events_of (for_each (process_row a fields rows')
                   (py_range start (Z.of_nat (length rows'))) st0) w).
    split; [done|]. rewrite Hout. simpl. do 2 f_equal.
    unfold flush_events. destruct (pending_batch st') eqn:Hp; [done|].
    rewrite events_bind, commit_events, commit_outcome, events_ret, Hp.
    by rewrite app_nil_r.
  - destruct (py_range_invalid rows' start) as (rest & Hrange & Hidx); [lia|].
    exists st0, []. subst V. rewrite Hrange. cbn [visited for_each].
    rewrite Hidx. split; [apply loop_post_nil|].
    rewrite events_bind. unfold process_row. rewrite Hidx. done.
Qed.

Lemma process_csv_outcome :
  barcode_col a ∈ fieldnames ->
  outcome_of run w =
  if decide (- Z.of_nat (length rows') <= start) then Ok tt
  else Raise IndexError.
Proof.
  intros Hcol. unfold run, process_csv. rewrite bool_decide_true by done.
  rewrite outcome_bind. cbn [outcome_of emit fst snd].
  rewrite outcome_bind. cbn [outcome_of get_world fst snd].
  fold rows' start nh0 fields.
  change (world_after (emit EvMakedirs) w) with w.
  change (world_after get_world w) with w.
  rewrite outcome_bind. fold rows' start nh0 fields.
  set (st0 := LoopState ∅ start [] nh0).
  case_decide as Hok.
  - destruct (for_each_spec a fields rows' _ (py_range_valid rows' start Hok) st0 w)
      as (st' & Hout & Hpost).
    rewrite Hout. destruct (pending_batch st'); [done|].
    by rewrite outcome_bind, commit_outcome.
  - destruct (py_range_invalid rows' start) as (rest & Hrange & Hidx); [lia|].
    rewrite Hrange. cbn [for_each]. rewrite outcome_bind.
    unfold process_row. by rewrite Hidx.
Qed.
End Run.

(** ** What the commit protocol guarantees *)

Lemma scan_split fields ph pre post ph' :
  scan fields ph (pre ++ post) = Some ph' ->
  exists ph1, scan fields ph pre = Some ph1 /\ scan fields ph1 post = Some ph'.
Proof.
  rewrite scan_app. destruct (scan fields ph pre) as [ph1|]; [|done].
  simpl. eauto.
Qed.

Lemma step_checkpoint fields ph n ph' :
  step fields ph (EvCheckpoint n) = Some ph' ->
  ph = Appended n /\ ph' = Idle false n.
Proof.
  destruct ph as [nh c|c]; [done|]. simpl. case_bool_decide; [|done].
  by intros [= <-]; subst.
Qed.

Lemma step_append fields ph mode header batch ph' :
  step fields ph (EvAppendRows mode header batch) = Some ph' ->
  exists nh c, ph = Idle nh c /\ batch <> []
               /\ mode = (if nh then ModeW else ModeA)
               /\ ph' = Appended (c + Z.of_nat (length batch)).
Proof.
  destruct ph as [nh c|c]; [|done]. destruct batch as [|r batch]; [done|].
  simpl. case_bool_decide as H; [|done]. destruct H as [-> _].
  intros [= <-]. by exists nh, c.
Qed.

Lemma step_other fields ph e ph' :
  step fields ph e = Some ph' -> is_write e = false -> ph' = ph.
Proof. destruct ph, e; simpl; try done; by intros [= <-]. Qed.

Lemma scan_count fields ph evs ph' :
  scan fields ph evs = Some ph' ->
  count_of ph' = count_of ph + Z.of_nat (length (rows_written evs)).
Proof.
  revert ph. induction evs as [|e evs IH]; intros ph.
  { intros [= <-]. simpl. lia. }
  simpl. destruct (step fields ph e) as [ph1|] eqn:Hstep; [|done].
  intros Hscan. rewrite (IH _ Hscan), length_app.
  destruct (is_write e) eqn:Hw.
  - destruct e; try done.
    + apply step_append in Hstep as (nh & c & -> & _ & _ & ->). simpl. lia.
    + apply step_checkpoint in Hstep as [-> ->]. simpl. lia.
  - rewrite (step_other _ _ _ _ Hstep Hw). destruct e; try done; simpl; lia.
Qed.

(** A scan can be in [Appended] only right after an [EvAppendRows]. *)
Lemma scan_appended fields nh c pre c' :
  scan fields (Idle nh c) pre = Some (Appended c') ->
  exists pre' mode header batch,
    pre = pre' ++ [EvAppendRows mode header batch] /\ batch <> [].
Proof.
  destruct pre as [|e pre _] using rev_ind; [done|].
  intros (ph1 & H1 & H2)%scan_split. simpl in H2.
  destruct (step fields ph1 e) as [ph2|] eqn:Hstep; [|done].
  injection H2 as ->. destruct e; try (by destruct ph1).
  - apply step_append in Hstep as (? & ? & _ & Hb & _).
    by eexists _, _, _, _.
  - by apply step_checkpoint in Hstep as [_ [=]].
Qed.

(** A scan that ends [Idle] has answered every append by its checkpoint. *)
Lemma scan_idle_after_append fields c post nh' c' :
  scan fields (Appended c) post = Some (Idle nh' c') ->
  exists post', post = EvCheckpoint c :: post'.
Proof.
  destruct post as [|e post]; [done|]. simpl.
  destruct e; try done. case_bool_decide; [|done]. subst. eauto.
Qed.

Lemma data_rows_written mode header batch old :
  data_rows (Some (written mode header batch old)) =
  match mode with ModeW => 0 | ModeA => data_rows old end
  + Z.of_nat (length batch).
Proof.
  unfold data_rows, written. simpl.
  rewrite !List.filter_app, !length_app.
  assert (forall l : list row, List.filter
            (fun rec => match rec with DataRecord _ => true | _ => false end)
            (List.map DataRecord l) = List.map DataRecord l) as ->.
  { induction l as [|r l IH]; [done|]. simpl. by rewrite IH. }
  rewrite length_map. destruct mode, header; simpl; lia.
Qed.

Lemma data_rows_nonneg f : 0 <= data_rows f.
Proof. unfold data_rows. lia. Qed.

Section Consistency.
Variable int_of_str : str -> option Z.

Lemma checkpoint_of_record w n :
  checkpoint_of int_of_str (apply_event w (EvCheckpoint n)) = n.
Proof. done. Qed.

(** The count the protocol keeps never exceeds the rows on disk. *)
Lemma step_counted fields w ph e ph' :
  step fields ph e = Some ph' ->
  count_of ph <= survivors ph w ->
  count_of ph' <= survivors ph' (apply_event w e).
Proof.
  intros Hstep Hinv. destruct (is_write e) eqn:Hw.
  - destruct e; try done.
    + apply step_append in Hstep as (nh & c & -> & _ & -> & ->).
      cbn [survivors count_of apply_event progress_csv] in *.
      rewrite data_rows_written. destruct nh; simpl in *; lia.
    + by apply step_checkpoint in Hstep as [-> ->].
  - rewrite (step_other _ _ _ _ Hstep Hw). by destruct e.
Qed.

(** Nor does the checkpoint on disk. *)
Lemma step_consistent fields w ph e ph' :
  step fields ph e = Some ph' ->
  count_of ph <= survivors ph w ->
  checkpoint_of int_of_str w <= survivors ph w ->
  checkpoint_of int_of_str (apply_event w e) <= survivors ph' (apply_event w e).
Proof.
  intros Hstep Hcount Hinv. destruct (is_write e) eqn:Hw.
  - destruct e; try done.
    + apply step_append in Hstep as (nh & c & -> & _ & -> & ->).
      cbn [survivors count_of apply_event progress_csv] in *.
      rewrite data_rows_written.
      change (checkpoint_of int_of_str (World _ _ _ (ckpt_path w)))
        with (checkpoint_of int_of_str w).
      destruct nh; simpl in *; lia.
    + apply step_checkpoint in Hstep as [-> ->].
      rewrite checkpoint_of_record. done.
  - rewrite (step_other _ _ _ _ Hstep Hw). by destruct e.
Qed.

Lemma scan_consistent fields w ph evs ph' :
  scan fields ph evs = Some ph' ->
  count_of ph <= survivors ph w ->
  (count_of ph' <= survivors ph' (replay w evs))
  /\ (checkpoint_of int_of_str w <= survivors ph w ->
      checkpoint_of int_of_str (replay w evs) <= survivors ph' (replay w evs)).
Proof.
  revert w ph. induction evs as [|e evs IH]; intros w ph.
  { by intros [= <-]. }
  simpl. destruct (step fields ph e) as [ph1|] eqn:Hstep; [|done].
  intros Hscan Hcount.
  destruct (IH (apply_event w e) ph1 Hscan) as [H1 H2];
    [by eapply step_counted|].
  split; [done|]. intros Hck. apply H2. by eapply step_consistent.
Qed.

Lemma survivors_le ph w : survivors ph w <= data_rows (progress_csv w).
Proof. destruct ph as [[|] ?|?]; simpl; try lia. apply data_rows_nonneg. Qed.
End Consistency.

(** The checkpoints of a scan grow strictly. *)
Lemma scan_checkpoints_sorted fields ph evs ph' :
  scan fields ph evs = Some ph' ->
  match ph with
  | Idle _ c => StronglySorted Z.lt (c :: checkpoints_written evs)
  | Appended c =>
      StronglySorted Z.lt (checkpoints_written evs)
      /\ Forall (fun n => c <= n) (checkpoints_written evs)
  end.
Proof.
  revert ph. induction evs as [|e evs IH]; intros ph.
  { intros _. destruct ph; repeat constructor. }
  simpl. destruct (step fields ph e) as [ph1|] eqn:Hstep; [|done].
  intros Hscan. specialize (IH _ Hscan).
  destruct (is_write e) eqn:Hw.
  - destruct e; try done.
    + apply step_append in Hstep as (nh & c & -> & Hb & _ & ->).
      destruct IH as [Hs Hall]. simpl.
      assert (0 < Z.of_nat (length batch)) by (destruct batch; simpl; [done|lia]).
      constructor; [done|]. eapply Forall_impl; [done|]. simpl. lia.
    + apply step_checkpoint in Hstep as [-> ->]. simpl. split; [done|].
      apply StronglySorted_inv in IH as [_ Hall].
      constructor; [lia|]. eapply Forall_impl; [done|]. simpl. lia.
  - rewrite (step_other _ _ _ _ Hstep Hw) in *. destruct ph; [|by destruct e].
    by destruct e.
Qed.

Lemma process_csv_scan int_of_str a fieldnames rows w :
  exists nh c,
    scan (out_fieldnames_of fieldnames)
         (Idle (initial_needs_header (resume a) (progress_csv w))
               (start_index int_of_str a w))
         (events_of (process_csv int_of_str a fieldnames rows) w)
    = Some (Idle nh c).
Proof.
  destruct (decide (barcode_col a ∈ fieldnames)) as [Hcol|Hcol].
  2:{ unfold events_of.
      rewrite (process_csv_missing_column int_of_str a _ rows w Hcol).
      by eexists _, _. }
  destruct (process_csv_events int_of_str a fieldnames rows w Hcol)
    as (st' & loop_evs & Hpost & ->).
  destruct Hpost as (_ & _ & _ & _ & _ & _ & Hscan & _).
  cbn [processed_count pending_batch needs_header length] in Hscan.
  rewrite Z.sub_0_r in Hscan.
  cbn [scan step]. rewrite scan_app. unfold start_index. rewrite Hscan.
  cbn [mbind option_bind]. unfold flush_events.
  destruct (pending_batch st') as [|r batch] eqn:Hp; [by eexists _, _|].
  rewrite scan_commit; [by eexists _, _ | done | lia].
Qed.

Lemma survivors_initial int_of_str a w :
  survivors (Idle (initial_needs_header (resume a) (progress_csv w))
                  (start_index int_of_str a w)) w = rows_kept a w.
Proof.
  unfold rows_kept, initial_needs_header, survivors.
  destruct (resume a); [|done]. by destruct (progress_csv w).
Qed.

Lemma dict_get_set_eq {V} (d : pydict V) key v :
  dict_get (dict_set d key v) key = Some v.
Proof.
  induction d as [|[k x] d IH]; simpl.
  - by rewrite decide_True.
  - case_decide; simpl; [by rewrite decide_True | by rewrite decide_False].
Qed.

Lemma dict_get_set_ne {V} (d : pydict V) key key' v :
  key' <> key -> dict_get (dict_set d key v) key' = dict_get d key'.
Proof.
  intros Hne. induction d as [|[k x] d IH]; simpl.
  - by rewrite decide_False.
  - case_decide; simpl; [subst; by rewrite !decide_False|].
    case_decide; [done | apply IH].
Qed.

(** ** Key normalizer *)

Lemma join_singletons (l : str) : join [] (List.map (fun ch => [ch]) l) = l.
Proof.
  induction l as [|c l IH]; [done|].
  destruct l as [|c' l]; [done|]. simpl in *. by rewrite IH.
Qed.

Lemma ascii_digit_tables ch :
  (ch < 128)%N ->
  isdigit ch = is_ascii_digit ch /\ isdecimal ch = is_ascii_digit ch.
Proof.
  intros Hlt.
  assert (forallb (fun c => Bool.eqb (isdigit c) (is_ascii_digit c)
                            && Bool.eqb (isdecimal c) (is_ascii_digit c))
                  (List.map N.of_nat (seq 0 128)) = true) as Hall
    by (vm_compute; reflexivity).
  rewrite forallb_forall in Hall. specialize (Hall ch).
  rewrite andb_true_iff, !Bool.eqb_true_iff in Hall. apply Hall.
  apply in_map_iff. exists (N.to_nat ch). split; [lia|].
  apply in_seq. lia.
Qed.

Lemma filter_ext_Forall {A} (f g : A -> bool) (P : A -> Prop) l :
  (forall x, P x -> f x = g x) -> Forall P l ->
  List.filter f l = List.filter g l.
Proof.
  intros Hfg. induction 1 as [|x l Hx _ IH]; [done|].
  simpl. by rewrite (Hfg x Hx), IH.
Qed.

(** C7 (corrected).  [normalize_barcode] is a total function of its argument
    alone; it returns the characters of the input that [str.isdigit]
    accepts, in their original order (for [None] and for a string without
    such a character, the empty string, which is the "no key" value).  The
    function of html_barcode_image_fetcher.py is the same.  On input made
    of ASCII characters these are exactly the decimal digits '0'..'9'. *)
Theorem normalize_barcode_keeps_isdigit_characters (raw : option str) :
  normalize_barcode raw = List.filter isdigit (default [] raw)
  /\ html_barcode_image_fetcher.normalize_barcode raw = normalize_barcode raw
  /\ (normalize_barcode raw = [] <->
      Forall (fun ch => isdigit ch = false) (default [] raw))
  /\ (Forall (fun ch => (ch < 128)%N) (default [] raw) ->
      normalize_barcode raw = ascii_digits (default [] raw)
      /\ normalize_barcode raw = decimal_digits (default [] raw)).
Proof.
  assert (Heq : normalize_barcode raw = List.filter isdigit (default [] raw))
    by apply join_singletons.
  split_and!; [done | done | |].
  - rewrite Heq. generalize (default [] raw) as l. intros l.
    induction l as [|c l IH]; [done|]. simpl.
    destruct (isdigit c) eqn:Hc.
    + split; [done|]. intros H. apply Forall_cons in H as [? _]. congruence.
    + rewrite IH. split; [by constructor | by intros [_ ?]%Forall_cons].
  - intros Hascii. rewrite Heq. unfold ascii_digits, decimal_digits. split.
    + eapply filter_ext_Forall; [|done]. intros c Hc.
      by apply ascii_digit_tables.
    + eapply filter_ext_Forall; [|done]. intros c Hc. simpl.
      destruct (ascii_digit_tables c Hc). congruence.
Qed.

Lemma normalize_barcode_keeps_isdigit_characters_witness :
  Forall (fun ch => (ch < 128)%N) (py "0 12-345")
  /\ normalize_barcode (Some (py "0 12-345")) = py "012345".
Proof.
  assert (H : Forall (fun ch => (ch < 128)%N) (py "0 12-345")).
  { repeat constructor. }
  split; [exact H|].
  destruct (normalize_barcode_keeps_isdigit_characters (Some (py "0 12-345")))
    as (_ & _ & _ & Hascii).
  destruct (Hascii H) as [-> _]. reflexivity.
Defined.

(** C7, as stated, fails: SUPERSCRIPT TWO (U+00B2) is no decimal digit, yet
    [str.isdigit] accepts it and [normalize_barcode] keeps it. *)
Lemma normalize_barcode_keeps_superscript_two :
  normalize_barcode (Some [178%N]) <> decimal_digits [178%N]
  /\ normalize_barcode (Some [178%N]) <> ascii_digits [178%N].
Proof. split; by vm_compute. Qed.

(** ** Missing key column *)

(** C8.  When the header does not contain the barcode column [process_csv]
    raises ValueError at once: no lookup, no request, no directory, no
    output row and no checkpoint; the world is left as it was. *)
Theorem missing_key_column_is_fatal int_of_str a fieldnames rows w :
  barcode_col a ∉ fieldnames ->
  outcome_of (process_csv int_of_str a fieldnames rows) w = Raise ValueError
  /\ events_of (process_csv int_of_str a fieldnames rows) w = []
  /\ world_after (process_csv int_of_str a fieldnames rows) w = w.
Proof.
  intros Hcol. unfold outcome_of, events_of, world_after.
  by rewrite (process_csv_missing_column int_of_str a fieldnames rows w Hcol).
Qed.

Lemma missing_key_column_is_fatal_witness :
  (barcode ∉ [py "name"; py "upc"])
  /\ outcome_of (process_csv int_rejecting (args_of 50 false)
                   [py "name"; py "upc"] [row_of "012345"]) fresh
     = Raise ValueError.
Proof.
  assert (H : barcode ∉ [py "name"; py "upc"]).
  { apply (bool_decide_unpack _). vm_compute. exact I. }
  split; [exact H|].
  exact (proj1 (missing_key_column_is_fatal int_rejecting (args_of 50 false)
                  [py "name"; py "upc"] [row_of "012345"] fresh H)).
Defined.

(** ** At most one query per key *)

(** C1.  In one run, [find_image_url_zero_cost] is entered exactly once for
    every non-empty key that occurs among the rows the run processes, and
    never for another key, in particular never for the empty ("no key")
    one; the requests sent for a key are those of that single lookup (at
    most [retries] per source), however often the key occurs. *)
Theorem at_most_one_query_per_key int_of_str a fieldnames rows w k :
  let evs := events_of (process_csv int_of_str a fieldnames rows) w in
  lookups_of k evs =
    (if decide (k <> [] /\
                k ∈ key_of a <$> processed_rows int_of_str a fieldnames rows w)
     then 1%nat else 0%nat)
  /\ (requests_for k evs
      <= lookups_of k evs * (length OPEN_FACTS_SOURCES * Z.to_nat (retries a)))%nat.
Proof.
  intros evs. subst evs. unfold processed_rows.
  case_bool_decide as Hcol.
  2:{ unfold events_of.
      rewrite (process_csv_missing_column int_of_str a _ rows w Hcol). simpl.
      split; [|done]. rewrite decide_False; [done|].
      intros [_ Hin]. by apply elem_of_nil in Hin. }
  destruct (process_csv_events int_of_str a fieldnames rows w Hcol)
    as (st' & loop_evs & Hpost & ->).
  destruct Hpost as (_ & _ & _ & _ & _ & _ & _ & Hl & Hr & _).
  assert (Hflush : forall st, lookups_of k (flush_events (out_fieldnames_of fieldnames) st) = 0%nat
                   /\ requests_for k (flush_events (out_fieldnames_of fieldnames) st) = 0%nat).
  { intros st. unfold flush_events. by destruct (pending_batch st). }
  destruct (Hflush st') as [Hf1 Hf2].
  change (EvMakedirs :: ?l) with ([EvMakedirs] ++ l).
  rewrite !lookups_of_app, !requests_for_app, Hf1, Hf2.
  change (lookups_of k [EvMakedirs]) with 0%nat.
  change (requests_for k [EvMakedirs]) with 0%nat.
  rewrite !Nat.add_0_l, !Nat.add_0_r. split; [|apply Hr].
  rewrite Hl. cbn [barcode_to_image]. apply decide_ext.
  unfold start_index. rewrite lookup_empty.
  split; [by intros (? & ? & _) | by intros (? & ?)].
Qed.

(** ** Write-ahead-data ordering and the checkpoint bound *)

Section Checkpointing.
Variable int_of_str : str -> option Z.
Variables (a : args) (fieldnames : list str) (rows : list row) (w : world).

Let evs := events_of (process_csv int_of_str a fieldnames rows) w.
Let start := start_index int_of_str a w.

(** C2 (corrected).  The world after the run is the effect of its events,
    in order.  Every checkpoint write comes immediately after an append of
    a non-empty batch, and the count it writes is the start index plus the
    number of rows appended up to there; every append is immediately
    followed by that checkpoint write.  If the checkpoint found on disk
    does not exceed the number of data rows the run keeps from the output
    file found on disk, then at every instant of the run, between an
    append and its checkpoint write too, the checkpoint on disk does not
    exceed the number of data rows in the output file. *)
Theorem write_ahead_data_ordering :
  world_after (process_csv int_of_str a fieldnames rows) w = replay w evs
  /\ (forall pre n post, evs = pre ++ EvCheckpoint n :: post ->
        exists pre' mode header batch,
          pre = pre' ++ [EvAppendRows mode header batch] /\ batch <> []
          /\ n = start + Z.of_nat (length (rows_written pre)))
  /\ (forall pre mode header batch post,
        evs = pre ++ EvAppendRows mode header batch :: post ->
        exists post',
          post = EvCheckpoint (start + Z.of_nat (length (rows_written pre))
                               + Z.of_nat (length batch)) :: post')
  /\ (checkpoint_of int_of_str w <= rows_kept a w ->
      forall pre post, evs = pre ++ post ->
        checkpoint_of int_of_str (replay w pre)
        <= data_rows (progress_csv (replay w pre))).
Proof.
  destruct (process_csv_scan int_of_str a fieldnames rows w)
    as (nh & c & Hscan). fold evs in Hscan. unfold start in *.
  split_and!.
  - apply sound_process_csv.
  - intros pre n post Heq. rewrite Heq in Hscan.
    apply scan_split in Hscan as (ph1 & Hpre & Hpost). simpl in Hpost.
    destruct (step _ ph1 _) as [ph2|] eqn:Hstep; [|done].
    apply step_checkpoint in Hstep as [-> ->].
    destruct (scan_appended _ _ _ _ _ Hpre) as (pre' & m & h & b & -> & Hb).
    exists pre', m, h, b. split_and!; [done..|].
    by apply scan_count in Hpre.
  - intros pre m h b post Heq. rewrite Heq in Hscan.
    apply scan_split in Hscan as (ph1 & Hpre & Hpost). simpl in Hpost.
    destruct (step _ ph1 _) as [ph2|] eqn:Hstep; [|done].
    apply step_append in Hstep as (nh1 & c1 & -> & _ & _ & ->).
    apply scan_count in Hpre. simpl in Hpre. subst c1.
    by apply scan_idle_after_append in Hpost.
  - intros Hck pre post Heq. rewrite Heq in Hscan.
    apply scan_split in Hscan as (ph1 & Hpre & _).
    assert (Hstart : start_index int_of_str a w <= rows_kept a w).
    { unfold start_index, start_index_of, rows_kept, checkpoint_of in *.
      destruct (resume a); [done | lia]. }
    destruct (scan_consistent int_of_str _ w _ _ _ Hpre) as [_ H2].
    { by rewrite survivors_initial. }
    etrans; [apply H2; by rewrite survivors_initial | apply survivors_le].
Qed.

(** C5 (corrected).  The counts written to the checkpoint file during a
    run grow strictly, the first one being greater than the index the run
    started from.  If that index does not exceed the number of data rows
    the run keeps from the output file found on disk (as in every run that
    does not resume), then the count of each commit does not exceed the
    number of data rows in the output file at that instant. *)
Theorem checkpoint_monotone_and_bounded :
  StronglySorted Z.lt (start :: checkpoints_written evs)
  /\ (start <= rows_kept a w ->
      forall pre n post, evs = pre ++ EvCheckpoint n :: post ->
        n <= data_rows (progress_csv (replay w (pre ++ [EvCheckpoint n])))).
Proof.
  destruct (process_csv_scan int_of_str a fieldnames rows w)
    as (nh & c & Hscan). fold evs in Hscan. unfold start in *.
  split.
  - apply (scan_checkpoints_sorted _ _ _ _ Hscan).
  - intros Hstart pre n post Heq.
    rewrite Heq, (cons_middle _ pre post), app_assoc in Hscan.
    apply scan_split in Hscan as (ph1 & Hpre & _).
    destruct (scan_consistent int_of_str _ w _ _ _ Hpre) as [H1 _].
    { by rewrite survivors_initial. }
    apply scan_split in Hpre as (ph0 & _ & Hlast). simpl in Hlast.
    destruct (step _ ph0 _) as [ph2|] eqn:Hstep; [|done].
    apply step_checkpoint in Hstep as [-> ->]. injection Hlast as <-.
    etrans; [apply H1 | apply survivors_le].
Qed.
End Checkpointing.

Lemma write_ahead_data_ordering_witness :
  checkpoint_of int_rejecting fresh <= rows_kept (args_of 1 false) fresh
  /\ checkpoint_of int_rejecting
       (replay fresh [EvMakedirs;
                      EvAppendRows ModeW (Some [barcode; image_url])
                                   [enrich (row_of "") None]])
     <= data_rows (progress_csv
          (replay fresh [EvMakedirs;
                         EvAppendRows ModeW (Some [barcode; image_url])
                                      [enrich (row_of "") None]])).
Proof.
  assert (H : checkpoint_of int_rejecting fresh
              <= rows_kept (args_of 1 false) fresh) by (vm_compute; discriminate).
  split; [exact H|].
  destruct (write_ahead_data_ordering int_rejecting (args_of 1 false)
              [barcode] [row_of ""] fresh) as (_ & _ & _ & Hcrash).
  apply (Hcrash H _ [EvCheckpoint 1]). vm_compute. reflexivity.
Defined.

(** C2, as stated, fails: a run without resume leaves an older checkpoint
    file in place; between its first append and the checkpoint write that
    follows, the checkpoint on disk (5) exceeds the rows in the output
    file (1). *)
Lemma stale_checkpoint_exceeds_rows :
  let w := checkpoint_only 5 in
  let pre := [EvMakedirs;
              EvAppendRows ModeW (Some [barcode; image_url])
                           [enrich (row_of "") None]] in
  events_of (process_csv int_rejecting (args_of 1 false) [barcode] [row_of ""]) w
  = pre ++ [EvCheckpoint 1]
  /\ ~ (checkpoint_of int_rejecting (replay w pre)
        <= data_rows (progress_csv (replay w pre))).
Proof. split; [by vm_compute|]. vm_compute. by intros H. Qed.

Lemma checkpoint_monotone_and_bounded_witness :
  start_index int_rejecting (args_of 1 false) fresh
  <= rows_kept (args_of 1 false) fresh
  /\ 1 <= data_rows (progress_csv
            (replay fresh ([EvMakedirs;
                            EvAppendRows ModeW (Some [barcode; image_url])
                                         [enrich (row_of "") None]]
                           ++ [EvCheckpoint 1]))).
Proof.
  assert (H : start_index int_rejecting (args_of 1 false) fresh
              <= rows_kept (args_of 1 false) fresh) by (vm_compute; discriminate).
  split; [exact H|].
  destruct (checkpoint_monotone_and_bounded int_rejecting (args_of 1 false)
              [barcode] [row_of ""] fresh) as [_ Hbound].
  apply (Hbound H _ 1 []). vm_compute. reflexivity.
Defined.

(** C5, as stated, fails: resuming from a checkpoint of 1 when the output
    file is gone, the run writes one row to a new file and then the
    checkpoint 2. *)
Lemma checkpoint_exceeds_rows_after_commit :
  let w := checkpoint_only 1 in
  let pre := [EvMakedirs;
              EvAppendRows ModeW (Some [barcode; image_url])
                           [enrich (row_of "") None]] in
  events_of (process_csv int_rejecting (args_of 1 true) [barcode]
               [row_of ""; row_of ""]) w
  = pre ++ [EvCheckpoint 2]
  /\ ~ (2 <= data_rows (progress_csv (replay w (pre ++ [EvCheckpoint 2])))).
Proof. split; [by vm_compute|]. vm_compute. by intros H. Qed.

(** ** A commit interval that is not positive *)

Lemma filter_no_write evs :
  Forall (fun e => is_write e = false) evs -> List.filter is_write evs = [].
Proof. induction 1 as [|e evs He _ IH]; [done|]. simpl. by rewrite He. Qed.




(** ** The enrichment column *)

Lemma dict_set_keys {V} (d : pydict V) key v :
  (dict_set d key v).*1 = if decide (key ∈ d.*1) then d.*1 else d.*1 ++ [key].
Proof.
  induction d as [|[k x] d IH]; cbn [dict_set].
  - case_decide as H; [by apply elem_of_nil in H | done].
  - destruct (decide (k = key)) as [->|Hne]; rewrite !fmap_cons; cbn [fst].
    + rewrite decide_True; [done | apply list_elem_of_here].
    + rewrite IH. destruct (decide (key ∈ d.*1)) as [Hin|Hin].
      * rewrite decide_True; [done | by apply list_elem_of_further].
      * rewrite decide_False; [done|].
        intros [?|?]%elem_of_cons; congruence.
Qed.




(** ** Corrupt checkpoint *)

Section CorruptCheckpoint.
Variable int_of_str : str -> option Z.

(** Loading never raises; a missing file, text that is not JSON, JSON that
    is no object, or an object whose count [int] rejects all give 0. *)
Lemma load_checkpoint_degrades (ckpt : option ckpt_content) :
  match ckpt with
  | None | Some NotJson => load_checkpoint int_of_str ckpt = 0
  | Some (Json (JDict d)) =>
      dict_get d (py "processed_count") = None ->
      load_checkpoint int_of_str ckpt = 0
  | Some (Json _) => load_checkpoint int_of_str ckpt = 0
  end.
Proof.
  destruct ckpt as [[|[]]|]; try done. simpl. by intros ->.
Qed.
End CorruptCheckpoint.

(** C4 (code defect).  A first run writes one row and the checkpoint 1; the
    checkpoint file is then corrupted; the run that resumes starts from 0, as
    the claim says, but appends to the existing output file: the row is there
    twice. *)
Theorem corrupt_checkpoint_duplicates_rows :
  let run resume :=
    process_csv int_rejecting (args_of 1 resume) [barcode] [row_of ""] in
  let w1 := world_after (run false) fresh in
  let w2 := world_after (run true) (corrupted w1) in
  let written := enrich (row_of "") None in
  progress_csv w1 = Some [HeaderRecord [barcode; image_url]; DataRecord written]
  /\ checkpoint_of int_rejecting w1 = 1
  /\ start_index int_rejecting (args_of 1 true) (corrupted w1) = 0
  /\ outcome_of (run true) (corrupted w1) = Ok tt
  /\ progress_csv w2 = Some [HeaderRecord [barcode; image_url];
                             DataRecord written; DataRecord written]
  /\ checkpoint_of int_rejecting w2 = 1.
Proof. by vm_compute. Qed.

(** ** The retry harness *)

Lemma requests_to_imageless (host h k : str) (d : Q) (ans : list http_result) :
  length (List.filter (is_request_to h)
            (flat_map (fun r => [EvRequest host k r; EvSleep d]) ans))
  = if decide (host = h) then length ans else 0%nat.
Proof.
  induction ans as [|r ans IH]; [by case_decide|].
  cbn [flat_map app List.filter is_request_to is_sleep].
  destruct (decide (host = h)) as [Heq|Hne].
  - rewrite bool_decide_true by done. cbn [length]. by rewrite IH.
  - rewrite bool_decide_false by done. by rewrite IH.
Qed.

Lemma answers_imageless w host k n :
  (forall i h, image_of (product_of_response (network w i h k)) = None) ->
  Forall (fun r => image_of (product_of_response r) = None) (answers w host k n).
Proof.
  intros Hnet. unfold answers. apply Forall_forall. intros r Hr.
  apply list_elem_of_In, in_map_iff in Hr as (i & <- & _). apply Hnet.
Qed.

Lemma attempts_outcome_imageless k host source d n w :
  (forall i h, image_of (product_of_response (network w i h k)) = None) ->
  outcome_of (attempts k host source d n) w = Ok None.
Proof.
  intros Hnet. rewrite attempts_outcome.
  destruct (list_find _ _) as [[i r]|] eqn:Hfind; [|done].
  apply list_find_Some in Hfind as (Hi & [img Himg] & _).
  pose proof (answers_imageless w host k n Hnet) as Hall.
  rewrite Forall_forall in Hall.
  rewrite (Hall r) in Himg; [done|]. by eapply list_elem_of_lookup_2.
Qed.

Lemma try_sources_imageless k d retries sources w :
  (forall i h, image_of (product_of_response (network w i h k)) = None) ->
  outcome_of (try_sources k d retries sources) w = Ok (None, None)
  /\ forall h,
       length (List.filter (is_request_to h)
                 (events_of (try_sources k d retries sources) w))
       = (length (List.filter (fun s => bool_decide (s.1 = h)) sources)
          * Z.to_nat retries)%nat.
Proof.
  revert w. induction sources as [|[host source] rest IH]; intros w Hnet.
  { done. }
  cbn [try_sources]. rewrite outcome_bind, events_bind.
  rewrite (attempts_outcome_imageless _ _ _ _ _ _ Hnet).
  set (w1 := world_after (attempts k host source d (Z.to_nat retries)) w).
  assert (Hnet1 : forall i h, image_of (product_of_response (network w1 i h k)) = None).
  { intros i h. unfold w1. rewrite sound_attempts, network_replay. apply Hnet. }
  destruct (IH w1 Hnet1) as [Hout Hcount]. split; [done|].
  intros h. rewrite List.filter_app, length_app, Hcount.
  rewrite attempts_events, attempt_events_imageless by by apply answers_imageless.
  rewrite requests_to_imageless, length_answers.
  cbn [List.filter fst]. case_decide; subst.
  - rewrite bool_decide_true by done. simpl. lia.
  - rewrite bool_decide_false by done. lia.
Qed.







(** ** The scenario of the specification

    Keys "012345", "", "012345" (written "012-345"), "999999", a commit
    every two rows, one source knowing "012345". *)
Example scenario_of_the_specification :
  let evs := events_of
    (process_csv int_rejecting (args_of 2 false) [barcode]
       [row_of "012345"; row_of ""; row_of "012-345"; row_of "999999"])
    (World one_product_network 0 None None) in
  checkpoints_written evs = [2; 4]
  /\ lookups_of known_barcode evs = 1%nat
  /\ lookups_of unknown_barcode evs = 1%nat
  /\ lookups_of [] evs = 0%nat
  /\ requests_for known_barcode evs = 1%nat
  /\ requests_for unknown_barcode evs = 6%nat
  /\ (fun r => dict_get r image_url) <$> rows_written evs
     = [ Some (Some (py "http://img/1.jpg")); Some (Some []);
         Some (Some (py "http://img/1.jpg")); Some (Some []) ].
Proof. by vm_compute. Qed.

(** * Further properties of the code *)

(** ** Strings and the choice of an image URL *)

Lemma lstrip_suffix s :
  exists pre, s = pre ++ lstrip s /\ Forall (fun c => isspace c = true) pre.
Proof.
  induction s as [|c s (pre & Hs & Hpre)]; [by exists []|]. simpl.
  destruct (isspace c) eqn:Hc.
  - exists (c :: pre). split; [by rewrite Hs at 1 | by constructor].
  - by exists [].
Qed.

Lemma lstrip_head s c rest : lstrip s = c :: rest -> isspace c = false.
Proof.
  induction s as [|c0 s IH]; [done|]. simpl.
  destruct (isspace c0) eqn:Hc; [done|]. by intros [= <- _].
Qed.

(** [s.strip()] is empty or begins and ends with a character that is no
    white space. *)
Lemma strip_ends s :
  (forall c, head (strip s) = Some c -> isspace c = false)
  /\ (forall c, last (strip s) = Some c -> isspace c = false).
Proof.
  unfold strip.
  destruct (lstrip_suffix (rev (lstrip s))) as (pre & Hrev & _).
  set (u := lstrip (rev (lstrip s))) in *.
  assert (Ht : lstrip s = rev u ++ rev pre).
  { by rewrite <- rev_app_distr, <- Hrev, rev_involutive. }
  split; intros c Hc.
  - destruct (rev u) as [|c' t] eqn:Hu; [done|]. simpl in Hc.
    injection Hc as ->. by apply (lstrip_head s c (t ++ rev pre)).
  - destruct u as [|c' t] eqn:Hu; [done|].
    simpl in Hc. rewrite last_snoc in Hc. injection Hc as ->.
    by apply (lstrip_head _ _ _ Hu).
Qed.

Lemma first_some_inv {A B} (f : A -> option B) l b :
  first_some f l = Some b ->
  exists l1 a l2, l = l1 ++ a :: l2 /\ f a = Some b
                  /\ Forall (fun x => f x = None) l1.
Proof.
  induction l as [|a l IH]; [done|]. simpl.
  destruct (f a) as [b'|] eqn:Ha.
  - intros [= ->]. by exists [], a, l.
  - intros (l1 & a' & l2 & -> & Ha' & Hl1)%IH.
    exists (a :: l1), a', l2. split_and!; [done..|]. by constructor.
Qed.

Lemma first_some_None {A B} (f : A -> option B) l :
  first_some f l = None <-> Forall (fun x => f x = None) l.
Proof.
  induction l as [|a l IH]; simpl; [done|].
  destruct (f a) eqn:Ha.
  - split; [done|]. intros [? _]%Forall_cons. congruence.
  - rewrite IH. split; [by constructor | by intros [_ ?]%Forall_cons].
Qed.

Lemma stripped_url_presentable v url :
  stripped_url v = Some url -> presentable url.
Proof.
  unfold stripped_url. destruct v as [[]|]; try done.
  destruct (str_truthy (strip s)) eqn:Hs; [|done]. intros [= <-].
  split; [by destruct (strip s) | apply strip_ends].
Qed.

Lemma pick_from_size_presentable sec size url :
  pick_from_size sec size = Some url -> presentable url.
Proof.
  unfold pick_from_size. destruct (dict_get sec size) as [[]|]; try done.
  destruct (stripped_url (dict_get d (py "en"))) as [u|] eqn:Hen.
  - intros [= <-]. by eapply stripped_url_presentable.
  - intros (_ & kv & _ & _ & Hkv & _)%first_some_inv.
    by eapply stripped_url_presentable.
Qed.

Lemma pick_from_section_presentable selected section url :
  pick_from_section selected section = Some url -> presentable url.
Proof.
  unfold pick_from_section. destruct (dict_get selected section) as [[]|]; try done.
  intros (_ & size & _ & _ & Hsize & _)%first_some_inv.
  by eapply pick_from_size_presentable.
Qed.

(** X1.  Whatever [pick_best_image_url] returns is a non-empty string
    without white space at either end. *)
Theorem pick_best_image_url_presentable product url :
  pick_best_image_url product = Some url -> presentable url.
Proof.
  unfold pick_best_image_url.
  destruct (first_some _ preferred_keys) as [u|] eqn:Hpref.
  - intros [= <-]. apply first_some_inv in Hpref as (_ & key & _ & _ & Hkey & _).
    by eapply stripped_url_presentable.
  - destruct (dict_get product (py "selected_images")) as [[]|]; try done.
    intros (_ & section & _ & _ & Hsec & _)%first_some_inv.
    by eapply pick_from_section_presentable.
Qed.

Lemma pick_best_image_url_presentable_witness :
  pick_best_image_url [(py "image_url", JStr (py " http://img/1.jpg "))]
    = Some (py "http://img/1.jpg")
  /\ presentable (py "http://img/1.jpg").
Proof.
  assert (H : pick_best_image_url [(py "image_url", JStr (py " http://img/1.jpg "))]
              = Some (py "http://img/1.jpg")) by reflexivity.
  split; [exact H|].
  exact (pick_best_image_url_presentable _ _ H).
Defined.

(** X2.  The preferred keys are tried in their order: the first of them
    whose value is a string with something else than white space decides,
    and its stripped value is returned; [selected_images] is looked at only
    when there is no such key. *)
Theorem pick_best_image_url_prefers_keys product earlier key later url :
  preferred_keys = earlier ++ key :: later ->
  Forall (fun k => stripped_url (dict_get product k) = None) earlier ->
  dict_get product key = Some (JStr url) ->
  strip url <> [] ->
  pick_best_image_url product = Some (strip url).
Proof.
  intros Hkeys Hearlier Hkey Hurl. unfold pick_best_image_url. rewrite Hkeys.
  assert (first_some (fun k => stripped_url (dict_get product k))
                     (earlier ++ key :: later) = Some (strip url)) as ->; [|done].
  assert (Hthis : stripped_url (dict_get product key) = Some (strip url)).
  { unfold stripped_url. rewrite Hkey. by destruct (strip url). }
  clear Hkeys. induction Hearlier as [|k earlier Hk _ IH]; cbn [app first_some].
  - by rewrite Hthis.
  - by rewrite Hk.
Qed.

Lemma pick_best_image_url_prefers_keys_witness :
  pick_best_image_url
    [ (py "image_small_url", JStr (py "http://img/small.jpg"));
      (py "image_front_url", JStr (py "  "));
      (py "image_url", JStr (py " http://img/1.jpg ")) ]
  = Some (strip (py " http://img/1.jpg ")).
Proof.
  apply (pick_best_image_url_prefers_keys _ [py "image_front_url"]
           (py "image_url")
           [py "image_pack_url"; py "image_ingredients_url";
            py "image_nutrition_url"; py "image_small_url";
            py "image_thumb_url"]).
  - reflexivity.
  - repeat constructor.
  - reflexivity.
  - vm_compute. discriminate.
Defined.

(** ** The normalizer, applied twice *)

Lemma filter_filter_same {A} (f : A -> bool) l :
  List.filter f (List.filter f l) = List.filter f l.
Proof.
  induction l as [|x l IH]; [done|]. simpl.
  destruct (f x) eqn:Hx; [|done]. simpl. by rewrite Hx, IH.
Qed.

(** X3.  Normalizing a normalized barcode changes nothing: the key that
    [find_images_from_sites] computes from an already normalized barcode is
    that barcode. *)
Theorem normalize_barcode_idempotent raw :
  normalize_barcode (Some (normalize_barcode raw)) = normalize_barcode raw.
Proof.
  unfold normalize_barcode. rewrite !join_singletons. simpl.
  apply filter_filter_same.
Qed.

(** ** The lookup: first image wins *)

Lemma attempt_events_first_image k host d l1 r l2 img :
  Forall (fun r => image_of (product_of_response r) = None) l1 ->
  image_of (product_of_response r) = Some img ->
  attempt_events k host d (l1 ++ r :: l2) =
  flat_map (fun r => [EvRequest host k r; EvSleep d]) l1 ++ [EvRequest host k r].
Proof.
  intros Hl1 Hr. induction Hl1 as [|r1 l1 Hr1 _ IH]; cbn [app attempt_events flat_map].
  - by rewrite Hr.
  - by rewrite Hr1, IH.
Qed.

Lemma fruitless_flat_map k host d l :
  Forall (fun r => image_of (product_of_response r) = None) l ->
  Forall fruitless (flat_map (fun r => [EvRequest host k r; EvSleep d]) l).
Proof. induction 1; simpl; repeat constructor; done. Qed.

Lemma attempts_cases k host source d n w :
  (outcome_of (attempts k host source d n) w = Ok None
   /\ Forall fruitless (events_of (attempts k host source d n) w))
  \/ (exists img pre r,
        outcome_of (attempts k host source d n) w = Ok (Some (img, source))
        /\ events_of (attempts k host source d n) w
           = pre ++ [EvRequest host k r]
        /\ image_of (product_of_response r) = Some img
        /\ Forall fruitless pre).
Proof.
  rewrite attempts_outcome, attempts_events.
  destruct (list_find _ _) as [[i r]|] eqn:Hfind.
  - right. apply list_find_Some in Hfind as (Hi & [img Himg] & Hbefore).
    exists img, (flat_map (fun r => [EvRequest host k r; EvSleep d])
                          (take i (answers w host k n))), r.
    assert (Hpre : Forall (fun r => image_of (product_of_response r) = None)
                          (take i (answers w host k n))).
    { apply Forall_forall. intros r' Hr'.
      apply list_elem_of_lookup in Hr' as [j Hj].
      apply lookup_take_Some in Hj as [Hj Hlt].
      destruct (image_of (product_of_response r')) eqn:Hr'; [|done].
      exfalso. apply (Hbefore j r' Hj Hlt). by eexists. }
    split_and!.
    + by rewrite Himg.
    + rewrite <- (take_drop_middle _ _ _ Hi) at 1.
      by eapply attempt_events_first_image.
    + done.
    + by apply fruitless_flat_map.
  - left. split; [done|]. apply list_find_None in Hfind.
    assert (Hall : Forall (fun r => image_of (product_of_response r) = None)
                          (answers w host k n)).
    { eapply Forall_impl; [done|]. intros r Hr. simpl in Hr.
      destruct (image_of (product_of_response r)); [|done].
      exfalso. apply Hr. by eexists. }
    rewrite attempt_events_imageless by done. by apply fruitless_flat_map.
Qed.

Lemma try_sources_cases k d retries sources w :
  (outcome_of (try_sources k d retries sources) w = Ok (None, None)
   /\ Forall fruitless (events_of (try_sources k d retries sources) w))
  \/ (exists img host source pre r,
        outcome_of (try_sources k d retries sources) w
          = Ok (Some img, Some source)
        /\ (host, source) ∈ sources
        /\ events_of (try_sources k d retries sources) w
           = pre ++ [EvRequest host k r]
        /\ image_of (product_of_response r) = Some img
        /\ Forall fruitless pre).
Proof.
  revert w. induction sources as [|[host source] rest IH]; intros w.
  { left. by split. }
  cbn [try_sources]. rewrite outcome_bind, events_bind.
  destruct (attempts_cases k host source d (Z.to_nat retries) w)
    as [[-> Hfr]|(img & pre & r & -> & -> & Himg & Hpre)].
  - destruct (IH (world_after (attempts k host source d (Z.to_nat retries)) w))
      as [[Hout Hfr2]|(img & host' & source' & pre & r & Hout & Hin & Hev & Himg & Hpre)].
    + left. split; [done|]. by apply Forall_app.
    + right. exists img, host', source',
        (events_of (attempts k host source d (Z.to_nat retries)) w ++ pre), r.
      split_and!; [done | by apply list_elem_of_further | | done |].
      * by rewrite Hev, app_assoc.
      * by apply Forall_app.
  - right. exists img, host, source, pre, r.
    split_and!; [done | apply list_elem_of_here | | done | done].
    by rewrite events_ret, app_nil_r.
Qed.


(** ** No attempt at all *)

Lemma requests_for_here host b r evs1 evs2 :
  (0 < requests_for b (evs1 ++ EvRequest host b r :: evs2))%nat.
Proof.
  rewrite requests_for_app. unfold requests_for at 2. simpl.
  rewrite bool_decide_true by done. simpl. lia.
Qed.

(** X5.  With [retries <= 0] no lookup sends a request or sleeps, and each
    finds nothing; a whole run of [process_csv] then sends no request. *)
Theorem no_retries_no_request int_of_str a fieldnames rows w :
  retries a <= 0 ->
  (forall k w',
     let lookup :=
       find_image_url_zero_cost k (per_source_delay_s a) (retries a) in
     events_of lookup w' = [EvLookup k]
     /\ outcome_of lookup w' = Ok (None, None))
  /\ Forall (fun e => is_any_request e = false)
            (events_of (process_csv int_of_str a fieldnames rows) w).
Proof.
  intros Ha. split.
  - intros k w' lookup. subst lookup. unfold find_image_url_zero_cost.
    rewrite events_bind, outcome_bind. simpl.
    unfold try_sources. by rewrite Z2Nat.nonpos.
  - apply Forall_forall. intros e He.
    destruct e as [|host b r| | | |]; try done. exfalso.
    apply list_elem_of_split in He as (evs1 & evs2 & Hevs).
    pose proof (requests_for_here host b r evs1 evs2) as Hpos.
    rewrite <- Hevs in Hpos. clear Hevs.
    destruct (decide (barcode_col a ∈ fieldnames)) as [Hcol|Hcol].
    2:{ unfold events_of in Hpos.
        rewrite (process_csv_missing_column _ _ _ _ _ Hcol) in Hpos.
        unfold requests_for in Hpos. simpl in Hpos. lia. }
    destruct (process_csv_events int_of_str a fieldnames rows w Hcol)
      as (st' & loop_evs & Hpost & Heq).
    rewrite Heq in Hpos.
    destruct Hpost as (_ & _ & _ & _ & _ & _ & _ & _ & Hr & _).
    specialize (Hr b). rewrite Z2Nat.nonpos in Hr by done.
    change (EvMakedirs :: ?l) with ([EvMakedirs] ++ l) in Hpos.
    rewrite !requests_for_app in Hpos.
    assert (requests_for b (flush_events (out_fieldnames_of fieldnames) st')
            = 0%nat).
    { unfold flush_events. by destruct (pending_batch st'). }
    change (requests_for b [EvMakedirs]) with 0%nat in Hpos. lia.
Qed.

Lemma no_retries_no_request_witness :
  let a := Args barcode (1 # 5) 0 None 1 false in
  retries a <= 0
  /\ Forall (fun e => is_any_request e = false)
            (events_of (process_csv int_rejecting a [barcode]
                          [row_of "012345"; row_of "999999"]) fresh).
Proof.
  intros a.
  assert (H : retries a <= 0) by reflexivity.
  split; [exact H|].
  exact (proj2 (no_retries_no_request int_rejecting a [barcode]
                  [row_of "012345"; row_of "999999"] fresh H)).
Defined.

(** ** Which rows a run processes *)

Lemma visited_Forall2 {A} (l : list A) idxs xs :
  Forall2 (fun idx x => py_index l idx = Some x) idxs xs ->
  visited l idxs = xs.
Proof. induction 1 as [|idx x idxs xs Hx _ IH]; simpl; [done|]. by rewrite Hx, IH. Qed.

Lemma visited_app {A} (l : list A) idxs1 idxs2 :
  Forall (fun idx => is_Some (py_index l idx)) idxs1 ->
  visited l (idxs1 ++ idxs2) = visited l idxs1 ++ visited l idxs2.
Proof.
  induction 1 as [|idx idxs1 [x Hx] _ IH]; simpl; [done|]. by rewrite Hx, IH.
Qed.

Lemma py_range_lookup start stop i idx :
  py_range start stop !! i = Some idx ->
  idx = start + Z.of_nat i /\ (i < Z.to_nat (stop - start))%nat.
Proof.
  unfold py_range. intros H.
  change (List.map ?f ?l) with (f <$> l) in H.
  rewrite list_lookup_fmap in H.
  destruct (seq 0 (Z.to_nat (stop - start)) !! i) as [j|] eqn:Hj; [|done].
  apply lookup_seq in Hj as [-> Hlt]. simpl in H. by injection H as <-.
Qed.

Lemma length_py_range start stop :
  length (py_range start stop) = Z.to_nat (stop - start).
Proof. unfold py_range. by rewrite length_map, length_seq. Qed.

Lemma visited_from {A} (l : list A) start :
  0 <= start ->
  visited l (py_range start (Z.of_nat (length l))) = drop (Z.to_nat start) l.
Proof.
  intros Hstart. apply visited_Forall2, Forall2_same_length_lookup. split.
  - rewrite length_py_range, length_drop. lia.
  - intros i idx x Hidx Hx. apply py_range_lookup in Hidx as [-> Hi].
    rewrite lookup_drop in Hx. unfold py_index.
    rewrite (proj2 (Z.leb_le _ _)) by lia. rewrite <- Hx. f_equal. lia.
Qed.

Lemma py_range_split start mid stop :
  start <= mid <= stop ->
  py_range start stop = py_range start mid ++ py_range mid stop.
Proof.
  intros H. unfold py_range.
  replace (Z.to_nat (stop - start))
    with (Z.to_nat (mid - start) + Z.to_nat (stop - mid))%nat by lia.
  rewrite seq_app, List.map_app. f_equal. simpl.
  replace (seq (Z.to_nat (mid - start)) (Z.to_nat (stop - mid)))
    with (Nat.add (Z.to_nat (mid - start)) <$> seq 0 (Z.to_nat (stop - mid)))
    by (rewrite fmap_add_seq; f_equal; lia).
  change (List.map ?f (?g <$> ?l)) with (f <$> (g <$> l)).
  rewrite <- list_fmap_compose. apply list_fmap_ext. intros _ i _. simpl. lia.
Qed.

Lemma visited_from_negative {A} (l : list A) start :
  - Z.of_nat (length l) <= start < 0 ->
  visited l (py_range start (Z.of_nat (length l)))
  = drop (Z.to_nat (Z.of_nat (length l) + start)) l ++ l.
Proof.
  intros Hstart. rewrite (py_range_split start 0) by lia.
  rewrite visited_app.
  2:{ apply Forall_forall. intros idx Hin.
      pose proof (py_range_valid l start (proj1 Hstart)) as Hall.
      rewrite Forall_forall in Hall. apply Hall.
      rewrite (py_range_split start 0) by lia. apply elem_of_app. by left. }
  rewrite (visited_from l 0) by lia. simpl. f_equal.
  apply visited_Forall2, Forall2_same_length_lookup. split.
  - rewrite length_py_range, length_drop. lia.
  - intros i idx x Hidx Hx. apply py_range_lookup in Hidx as [-> Hi].
    rewrite lookup_drop in Hx. unfold py_index.
    rewrite (proj2 (Z.leb_gt _ _)) by lia.
    rewrite (proj2 (Z.leb_le _ _)) by lia. rewrite <- Hx. f_equal. lia.
Qed.

(** The rows written are the rows processed, enriched. *)
Lemma process_csv_rows_written int_of_str a fieldnames rows w :
  exists cache,
    rows_written (events_of (process_csv int_of_str a fieldnames rows) w)
    = List.map (fun r => enrich r (img_url_of cache (key_of a r)))
               (processed_rows int_of_str a fieldnames rows w).
Proof.
  unfold processed_rows. case_bool_decide as Hcol.
  2:{ exists ∅. unfold events_of.
      by rewrite (process_csv_missing_column int_of_str a _ rows w Hcol). }
  destruct (process_csv_events int_of_str a fieldnames rows w Hcol)
    as (st' & loop_evs & Hpost & ->).
  destruct Hpost as (_ & _ & _ & _ & _ & Hrows & _).
  cbn [barcode_to_image pending_batch app] in *.
  exists (barcode_to_image st').
  change (EvMakedirs :: ?l) with ([EvMakedirs] ++ l).
  rewrite !rows_written_app. cbn [rows_written flat_map app].
  fold (rows_written loop_evs).
  fold (rows_written (flush_events (out_fieldnames_of fieldnames) st')).
  assert (rows_written (flush_events (out_fieldnames_of fieldnames) st')
          = pending_batch st') as ->; [|done].
  unfold flush_events. destruct (pending_batch st'); [done|].
  simpl. by rewrite app_nil_r.
Qed.







(** ** The two files after a run *)

Lemma step_append_header fields nh c mode header batch ph' :
  step fields (Idle nh c) (EvAppendRows mode header batch) = Some ph' ->
  batch <> []
  /\ mode = (if nh then ModeW else ModeA)
  /\ header = (if nh then Some fields else None)
  /\ ph' = Appended (c + Z.of_nat (length batch)).
Proof.
  destruct batch as [|r batch]; [done|]. simpl.
  case_bool_decide as H; [|done]. destruct H as [-> ->]. by intros [= <-].
Qed.

Lemma scan_file fields ph evs ph' w :
  scan fields ph evs = Some ph' ->
  progress_csv (replay w evs)
  = file_after fields ph (progress_csv w) (rows_written evs).
Proof.
  revert ph w. induction evs as [|e evs IH]; intros ph w; [done|].
  simpl. destruct (step fields ph e) as [ph1|] eqn:Hstep; [|done].
  intros Hscan. rewrite (IH _ _ Hscan).
  destruct (is_write e) eqn:Hw.
  - destruct e; try done.
    + destruct ph as [nh c|c]; [|done].
      apply step_append_header in Hstep as (Hb & -> & -> & ->).
      destruct batch as [|r batch]; [done|].
      change (rows_written (EvAppendRows ?m ?h ?b :: ?l))
        with (b ++ rows_written l).
      cbn [apply_event progress_csv].
      destruct (rows_written evs) as [|r' rw] eqn:Hrw.
      * rewrite app_nil_r. by destruct nh.
      * unfold file_after, written. cbn [app default]. f_equal.
        change (r :: batch ++ r' :: rw) with ((r :: batch) ++ r' :: rw).
        rewrite List.map_app. unfold id.
        destruct nh; cbn [app]; by rewrite <- ?app_assoc.
    + by apply step_checkpoint in Hstep as [-> ->].
  - rewrite (step_other _ _ _ _ Hstep Hw). by destruct e.
Qed.

Lemma replay_ckpt w evs :
  ckpt_path (replay w evs)
  = match last (checkpoints_written evs) with
    | Some n => Some (ckpt_record n)
    | None => ckpt_path w
    end.
Proof.
  induction evs as [|e evs IH] using rev_ind; [done|].
  rewrite replay_app. unfold checkpoints_written in *.
  rewrite flat_map_app. simpl. rewrite app_nil_r.
  destruct e; simpl; rewrite ?app_nil_r; try apply IH.
  by rewrite last_snoc.
Qed.

Lemma scan_last_checkpoint fields ph evs nh' c' :
  scan fields ph evs = Some (Idle nh' c') ->
  match last (checkpoints_written evs) with
  | Some n => n = c'
  | None => rows_written evs = [] /\ exists nh c, ph = Idle nh c
  end.
Proof.
  revert ph. induction evs as [|e evs IH]; intros ph.
  { intros [= ->]. simpl. eauto. }
  simpl. destruct (step fields ph e) as [ph1|] eqn:Hstep; [|done].
  intros Hscan. specialize (IH _ Hscan).
  destruct (is_write e) eqn:Hw.
  - destruct e; try done.
    + apply step_append in Hstep as (nh & c & -> & _ & _ & ->). simpl.
      destruct (last (checkpoints_written evs)); [done|].
      by destruct IH as (_ & ? & ? & ?).
    + apply step_checkpoint in Hstep as [-> ->].
      cbn [checkpoints_written flat_map app].
      fold (checkpoints_written evs). rewrite last_cons.
      destruct (last (checkpoints_written evs)); [done|].
      destruct IH as [Hrw _]. apply scan_count in Hscan.
      rewrite Hrw in Hscan. simpl in Hscan. lia.
  - rewrite (step_other _ _ _ _ Hstep Hw) in *.
    destruct e; try done; simpl;
      (destruct (last (checkpoints_written evs)); [done|]);
      destruct IH as [? ?]; eauto.
Qed.

Lemma scan_no_rows_no_checkpoint fields nh c evs ph' :
  scan fields (Idle nh c) evs = Some ph' ->
  rows_written evs = [] -> checkpoints_written evs = [].
Proof.
  revert nh c. induction evs as [|e evs IH]; intros nh c; [done|].
  cbn [scan]. destruct (step fields (Idle nh c) e) as [ph1|] eqn:Hstep; [|done].
  intros Hscan Hrw. destruct (is_write e) eqn:Hw.
  - destruct e; try done.
    apply step_append in Hstep as (? & ? & _ & Hb & _).
    simpl in Hrw. by apply app_eq_nil in Hrw as [? _].
  - rewrite (step_other _ _ _ _ Hstep Hw) in *.
    destruct e; try done; simpl in *; by eapply IH.
Qed.

Lemma process_csv_file int_of_str a fieldnames rows w :
  progress_csv (world_after (process_csv int_of_str a fieldnames rows) w)
  = file_after (out_fieldnames_of fieldnames)
      (Idle (initial_needs_header (resume a) (progress_csv w))
            (start_index int_of_str a w))
      (progress_csv w)
      (rows_written (events_of (process_csv int_of_str a fieldnames rows) w)).
Proof.
  destruct (process_csv_scan int_of_str a fieldnames rows w) as (nh & c & Hscan).
  by rewrite sound_process_csv, (scan_file _ _ _ _ _ Hscan).
Qed.

Lemma process_csv_ckpt int_of_str a fieldnames rows w :
  ckpt_path (world_after (process_csv int_of_str a fieldnames rows) w)
  = match processed_rows int_of_str a fieldnames rows w with
    | [] => ckpt_path w
    | V => Some (ckpt_record (start_index int_of_str a w + Z.of_nat (length V)))
    end.
Proof.
  destruct (process_csv_scan int_of_str a fieldnames rows w) as (nh & c & Hscan).
  destruct (process_csv_rows_written int_of_str a fieldnames rows w)
    as (cache & Hrw).
  rewrite sound_process_csv, replay_ckpt.
  pose proof (scan_last_checkpoint _ _ _ _ _ Hscan) as Hlast.
  pose proof (scan_count _ _ _ _ Hscan) as Hcount. simpl in Hcount.
  rewrite Hrw, length_map in Hcount.
  destruct (processed_rows int_of_str a fieldnames rows w) as [|r V] eqn:HV.
  - simpl in Hrw.
    by rewrite (scan_no_rows_no_checkpoint _ _ _ _ _ Hscan Hrw).
  - destruct (last (checkpoints_written _)) as [n|].
    + by subst.
    + destruct Hlast as [Hnil _]. by rewrite Hrw in Hnil.
Qed.



(** X11.  Resuming after a run that got through changes nothing: when the
    first run had rows to process and its start index was in range, a second
    run with [resume=True] on the files it left only makes sure the
    directory exists - no lookup, no request, no write. *)
Theorem resume_after_completion_is_idle int_of_str a fieldnames rows w :
  barcode_col a ∈ fieldnames ->
  let total := Z.of_nat (length (apply_limit (limit a) rows)) in
  - total <= start_index int_of_str a w < total ->
  let w' := world_after (process_csv int_of_str a fieldnames rows) w in
  events_of (process_csv int_of_str (resuming a) fieldnames rows) w'
    = [EvMakedirs]
  /\ outcome_of (process_csv int_of_str (resuming a) fieldnames rows) w' = Ok tt
  /\ world_after (process_csv int_of_str (resuming a) fieldnames rows) w' = w'.
Proof.
  intros Hcol total Hstart w'.
  assert (Hck : ckpt_path w' = Some (ckpt_record total)).
  { unfold w'. rewrite process_csv_ckpt. unfold processed_rows.
    rewrite bool_decide_true by done.
    set (V := visited _ _).
    assert (HV : length V = Z.to_nat (total - start_index int_of_str a w)).
    { unfold V. rewrite length_visited_valid by (apply py_range_valid; lia).
      apply length_py_range. }
    destruct V as [|r V]; [simpl in HV; lia|].
    do 2 f_equal. rewrite HV. lia. }
  assert (Hev : events_of (process_csv int_of_str (resuming a) fieldnames rows) w'
                = [EvMakedirs]
                /\ outcome_of (process_csv int_of_str (resuming a) fieldnames rows) w'
                   = Ok tt).
  { unfold process_csv. cbn [resuming barcode_col limit resume].
    rewrite bool_decide_true by done.
    rewrite events_bind, outcome_bind.
    cbn [outcome_of emit fst snd events_of app].
    rewrite events_bind, outcome_bind.
    cbn [outcome_of get_world fst snd events_of app].
    rewrite events_bind, outcome_bind.
    change (world_after (emit EvMakedirs) w') with w'.
    change (world_after get_world w') with w'.
    rewrite Hck. change (start_index_of int_of_str true (Some (ckpt_record total)))
      with total.
    assert (py_range total (Z.of_nat (length (apply_limit (limit a) rows))) = [])
      as ->.
    { unfold py_range. fold total. by rewrite Z.sub_diag. }
    done. }
  destruct Hev as [Hev Hout]. split_and!; [done..|].
  by rewrite sound_process_csv, Hev.
Qed.

Lemma resume_after_completion_is_idle_witness :
  (barcode ∈ [barcode])
  /\ - 2 <= start_index int_rejecting (args_of 1 false) fresh < 2
  /\ events_of (process_csv int_rejecting (resuming (args_of 1 false)) [barcode]
                  [row_of "012345"; row_of ""])
       (world_after (process_csv int_rejecting (args_of 1 false) [barcode]
                       [row_of "012345"; row_of ""]) fresh)
     = [EvMakedirs].
Proof.
  assert (H1 : barcode ∈ [barcode]) by apply list_elem_of_here.
  assert (H2 : - 2 <= start_index int_rejecting (args_of 1 false) fresh < 2)
    by (vm_compute; split; [discriminate | reflexivity]).
  split; [exact H1|]. split; [exact H2|].
  exact (proj1 (resume_after_completion_is_idle int_rejecting (args_of 1 false)
                  [barcode] [row_of "012345"; row_of ""] fresh H1 H2)).
Defined.

(** ** Sources that always answer the same *)

Lemma same_network_refl w : same_network w w.
Proof. done. Qed.

Lemma same_network_after {A} (c : M A) w0 w :
  sound c -> same_network w0 w -> same_network w0 (world_after c w).
Proof.
  intros Hc Hsame n host b. rewrite Hc, network_replay. apply Hsame.
Qed.

Lemma same_network_replay w0 w evs :
  same_network w0 w -> same_network w0 (replay w evs).
Proof. intros Hsame n host b. rewrite network_replay. apply Hsame. Qed.

Lemma answers_stationary w0 w host k n :
  stationary w0 -> same_network w0 w ->
  answers w host k n = answers w0 host k n.
Proof.
  intros Hst Hsame. unfold answers. apply List.map_ext. intros i.
  rewrite <- Hsame. apply Hst.
Qed.

Lemma try_sources_outcome_stationary k d retries sources w0 w1 w2 :
  stationary w0 -> same_network w0 w1 -> same_network w0 w2 ->
  outcome_of (try_sources k d retries sources) w1
  = outcome_of (try_sources k d retries sources) w2.
Proof.
  intros Hst. revert w1 w2.
  induction sources as [|[host source] rest IH]; intros w1 w2 H1 H2; [done|].
  cbn [try_sources]. rewrite !outcome_bind, !attempts_outcome.
  rewrite (answers_stationary w0 w1), (answers_stationary w0 w2) by done.
  destruct (list_find _ _) as [[i r]|].
  - destruct (image_of (product_of_response r)); simpl; [done|].
    apply IH; apply same_network_after; auto using sound_attempts.
  - apply IH; apply same_network_after; auto using sound_attempts.
Qed.

Lemma lookup_on_stationary a w0 w k :
  stationary w0 -> same_network w0 w -> lookup_on a w k = lookup_on a w0 k.
Proof.
  intros Hst Hsame. unfold lookup_on. rewrite !find_outcome.
  by rewrite (try_sources_outcome_stationary _ _ _ _ w0 w w0).
Qed.

Lemma resolve_cache_on a w0 k cache w :
  stationary w0 -> same_network w0 w -> cache_on a w0 cache ->
  exists cache', outcome_of (resolve a k cache) w
                 = Ok (cache', img_url_of cache' k)
                 /\ cache_on a w0 cache'.
Proof.
  intros Hst Hsame Hcache. unfold resolve, img_url_of.
  destruct (str_truthy k); [|by exists cache].
  destruct (cache !! k) as [v|] eqn:Hk.
  - exists cache. by rewrite outcome_bind.
  - rewrite !outcome_bind.
    destruct (outcome_of (find_image_url_zero_cost k _ _) w) as [found|e] eqn:Hfind.
    2:{ rewrite find_outcome in Hfind.
        destruct (try_sources_outcome k (per_source_delay_s a) (retries a)
                    OPEN_FACTS_SOURCES w) as (? & ? & Hok & _). congruence. }
    exists (<[k := found]> cache). split; [done|].
    intros k' v'. destruct (decide (k' = k)) as [->|Hne].
    + rewrite lookup_insert_eq. intros [= <-].
      rewrite <- (lookup_on_stationary a w0 w k) by done.
      unfold lookup_on. by rewrite Hfind.
    + rewrite lookup_insert_ne by done. apply Hcache.
Qed.

Lemma process_row_cache_on a w0 fields rows st idx w r :
  py_index rows idx = Some r ->
  stationary w0 -> same_network w0 w -> cache_on a w0 (barcode_to_image st) ->
  exists st', outcome_of (process_row a fields rows st idx) w = Ok st'
              /\ cache_on a w0 (barcode_to_image st').
Proof.
  intros Hidx Hst Hsame Hcache. unfold process_row. rewrite Hidx.
  destruct (resolve_cache_on a w0 (normalize_barcode
              (default (Some []) (dict_get r (barcode_col a))))
              (barcode_to_image st) w Hst Hsame Hcache) as (cache' & Hout & Hc').
  rewrite outcome_bind, Hout. cbn [fst snd].
  destruct (_ && _).
  - rewrite commit_outcome. by eexists.
  - by eexists.
Qed.

Lemma for_each_cache_on a w0 fields rows idxs :
  stationary w0 ->
  Forall (fun idx => is_Some (py_index rows idx)) idxs ->
  forall st w,
    same_network w0 w -> cache_on a w0 (barcode_to_image st) ->
    exists st', outcome_of (for_each (process_row a fields rows) idxs st) w = Ok st'
                /\ cache_on a w0 (barcode_to_image st').
Proof.
  intros Hst. induction 1 as [|idx idxs [r Hr] _ IH]; intros st w Hsame Hcache.
  { by exists st. }
  destruct (process_row_cache_on a w0 fields rows st idx w r Hr Hst Hsame Hcache)
    as (st1 & Hout1 & Hc1).
  cbn [for_each]. rewrite outcome_bind, Hout1.
  apply IH; [|done]. apply same_network_after; [apply sound_process_row | done].
Qed.

(** Events and final loop state of a run whose start index is in range. *)
Lemma process_csv_in_range int_of_str a fieldnames rows w :
  barcode_col a ∈ fieldnames ->
  let rows' := apply_limit (limit a) rows in
  let start := start_index int_of_str a w in
  let fields := out_fieldnames_of fieldnames in
  let loop := for_each (process_row a fields rows')
                (py_range start (Z.of_nat (length rows')))
                (LoopState ∅ start []
                   (initial_needs_header (resume a) (progress_csv w))) in
  - Z.of_nat (length rows') <= start ->
  exists st', outcome_of loop w = Ok st'
              /\ events_of (process_csv int_of_str a fieldnames rows) w
                 = EvMakedirs :: events_of loop w ++ flush_events fields st'.
Proof.
  intros Hcol rows' start fields loop Hstart. subst rows' start fields loop.
  unfold start_index in *.
  destruct (for_each_spec a (out_fieldnames_of fieldnames)
              (apply_limit (limit a) rows) _ (py_range_valid _ _ Hstart)
              (LoopState ∅ (start_index_of int_of_str (resume a) (ckpt_path w)) []
                 (initial_needs_header (resume a) (progress_csv w))) w)
    as (st' & Hout & _).
  exists st'. split; [done|].
  unfold process_csv. rewrite bool_decide_true by done.
  rewrite events_bind. cbn [outcome_of emit fst snd events_of app].
  rewrite events_bind. cbn [outcome_of get_world fst snd events_of app].
  rewrite events_bind.
  change (world_after (emit EvMakedirs) w) with w.
  change (world_after get_world w) with w.
  rewrite Hout. do 2 f_equal.
  unfold flush_events. destruct (pending_batch st') eqn:Hp; [done|].
  rewrite events_bind, commit_events, commit_outcome, events_ret, Hp.
  by rewrite app_nil_r.
Qed.

Lemma process_csv_below_range int_of_str a fieldnames rows w :
  barcode_col a ∈ fieldnames ->
  start_index int_of_str a w < - Z.of_nat (length (apply_limit (limit a) rows)) ->
  events_of (process_csv int_of_str a fieldnames rows) w = [EvMakedirs].
Proof.
  intros Hcol Hstart.
  destruct (py_range_invalid (apply_limit (limit a) rows) _ Hstart)
    as (rest & Hrange & Hidx).
  unfold process_csv. rewrite bool_decide_true by done.
  rewrite events_bind. cbn [outcome_of emit fst snd events_of app].
  rewrite events_bind. cbn [outcome_of get_world fst snd events_of app].
  rewrite events_bind.
  change (world_after (emit EvMakedirs) w) with w.
  change (world_after get_world w) with w.
  unfold start_index in Hrange, Hidx. rewrite Hrange. cbn [for_each].
  rewrite outcome_bind, events_bind. unfold process_row. rewrite Hidx. done.
Qed.

Lemma rows_written_stationary int_of_str a fieldnames rows w :
  stationary w ->
  rows_written (events_of (process_csv int_of_str a fieldnames rows) w)
  = enriched_on a w <$> processed_rows int_of_str a fieldnames rows w.
Proof.
  intros Hst. unfold processed_rows. case_bool_decide as Hcol.
  2:{ unfold events_of.
      by rewrite (process_csv_missing_column int_of_str a _ rows w Hcol). }
  set (rows' := apply_limit (limit a) rows).
  destruct (decide (- Z.of_nat (length rows') <= start_index int_of_str a w))
    as [Hstart|Hstart].
  2:{ rewrite process_csv_below_range by (done || (fold rows'; lia)).
      destruct (py_range_invalid rows' (start_index int_of_str a w))
        as (rest & -> & Hidx); [lia|]. simpl. by rewrite Hidx. }
  destruct (process_csv_in_range int_of_str a fieldnames rows w Hcol Hstart)
    as (st' & Hout & ->). fold rows' in Hout |- *.
  set (st0 := LoopState _ _ _ _) in *.
  destruct (for_each_spec a (out_fieldnames_of fieldnames) rows' _
              (py_range_valid rows' _ Hstart) st0 w) as (st2 & Hout2 & Hpost).
  rewrite Hout in Hout2. injection Hout2 as <-.
  destruct (for_each_cache_on a w (out_fieldnames_of fieldnames) rows' _ Hst
              (py_range_valid rows' _ Hstart) st0 w (same_network_refl w))
    as (st3 & Hout3 & Hcache); [done|].
  rewrite Hout in Hout3. injection Hout3 as <-.
  destruct Hpost as (_ & _ & _ & Hin & _ & Hrows & _).
  cbn [pending_batch app] in Hrows.
  change (EvMakedirs :: ?l) with ([EvMakedirs] ++ l).
  rewrite !rows_written_app. cbn [rows_written flat_map app].
  fold (rows_written (events_of (for_each (process_row a (out_fieldnames_of fieldnames) rows')
          (py_range (start_index int_of_str a w) (Z.of_nat (length rows'))) st0) w)).
  fold (rows_written (flush_events (out_fieldnames_of fieldnames) st')).
  assert (rows_written (flush_events (out_fieldnames_of fieldnames) st')
          = pending_batch st') as ->.
  { unfold flush_events. destruct (pending_batch st'); [done|].
    simpl. by rewrite app_nil_r. }
  rewrite Hrows. apply List.map_ext_in. intros r Hr.
  unfold enriched_on, img_url_of. f_equal.
  destruct (str_truthy (key_of a r)) eqn:Hk; [|done].
  apply str_truthy_spec in Hk.
  destruct (Hin (key_of a r) Hk) as [v Hv].
  { apply list_elem_of_fmap_2. by apply list_elem_of_In. }
  rewrite Hv. simpl. by apply Hcache.
Qed.


(** ** Interrupted and resumed *)

Lemma quiet_phase fields nh c pre ph :
  scan fields (Idle nh c) pre = Some ph -> quiet pre ->
  exists nh' c', ph = Idle nh' c'.
Proof.
  intros Hscan Hq. destruct ph as [nh' c'|c']; [by eauto|].
  apply scan_appended in Hscan as (pre' & m & h & b & -> & _).
  by destruct (Hq pre' m h b).
Qed.

Lemma stationary_same w0 w : stationary w0 -> same_network w0 w -> stationary w.
Proof. intros Hst Hsame n m host b. rewrite <- !Hsame. apply Hst. Qed.

Lemma enriched_on_resuming a w0 w r :
  stationary w0 -> same_network w0 w ->
  enriched_on (resuming a) w r = enriched_on a w0 r.
Proof.
  intros Hst Hsame. unfold enriched_on.
  change (key_of (resuming a) r) with (key_of a r).
  destruct (str_truthy (key_of a r)); [|done].
  change (lookup_on (resuming a) w) with (lookup_on a w).
  by rewrite (lookup_on_stationary a w0 w).
Qed.

Lemma load_checkpoint_record int_of_str n :
  load_checkpoint int_of_str (Some (ckpt_record n)) = n.
Proof. done. Qed.

Section Interrupted.
Variable int_of_str : str -> option Z.
Variables (a : args) (fieldnames : list str) (rows : list row) (w : world).
Variables (pre post : list event).

Hypothesis Hcol : barcode_col a ∈ fieldnames.
Hypothesis Hst : stationary w.
Hypothesis Hprogress : progress_csv w = None.
Hypothesis Hckpt : ckpt_path w = None.
Hypothesis Hevs :
  events_of (process_csv int_of_str a fieldnames rows) w = pre ++ post.
Hypothesis Hquiet : quiet pre.

Let rows' := apply_limit (limit a) rows.
Let fields := out_fieldnames_of fieldnames.
Let crashed := replay w pre.
Let done_before := length (rows_written pre).

Local Lemma start_is_zero : start_index int_of_str a w = 0.
Proof using All.
  unfold start_index, start_index_of. rewrite Hckpt. by destruct (resume a).
Qed.

Local Lemma header_is_due : initial_needs_header (resume a) (progress_csv w) = true.
Proof using All. rewrite Hprogress. by destruct (resume a). Qed.

Local Lemma full_rows :
  rows_written (events_of (process_csv int_of_str a fieldnames rows) w)
  = enriched_on a w <$> rows'.
Proof using All.
  rewrite rows_written_stationary by done. f_equal.
  unfold processed_rows. rewrite bool_decide_true by done.
  rewrite start_is_zero. apply (visited_from rows' 0). lia.
Qed.

Local Lemma pre_scan :
  exists nh, scan fields (Idle true 0) pre
             = Some (Idle nh (Z.of_nat done_before)).
Proof using All.
  destruct (process_csv_scan int_of_str a fieldnames rows w) as (nh & c & Hscan).
  rewrite header_is_due, start_is_zero, Hevs in Hscan.
  apply scan_split in Hscan as (ph & Hpre & _).
  destruct (quiet_phase _ _ _ _ _ Hpre Hquiet) as (nh' & c' & ->).
  exists nh'. pose proof (scan_count _ _ _ _ Hpre) as Hc. simpl in Hc.
  unfold fields, done_before. by rewrite Hpre, Hc.
Qed.

Local Lemma pre_rows :
  rows_written pre = enriched_on a w <$> take done_before rows'.
Proof using All.
  pose proof full_rows as Hfull. rewrite Hevs, rows_written_app in Hfull.
  rewrite fmap_take, <- Hfull. unfold done_before.
  by rewrite take_app_length.
Qed.

Local Lemma done_before_le : (done_before <= length rows')%nat.
Proof using All.
  pose proof full_rows as Hfull. rewrite Hevs, rows_written_app in Hfull.
  apply (f_equal length) in Hfull.
  rewrite length_app, length_fmap in Hfull. unfold done_before. lia.
Qed.

Local Lemma crashed_file :
  progress_csv crashed
  = file_after fields (Idle true 0) None (rows_written pre).
Proof using All.
  destruct pre_scan as (nh & Hscan).
  unfold crashed. by rewrite (scan_file _ _ _ _ _ Hscan), Hprogress.
Qed.

Local Lemma crashed_start :
  start_index int_of_str (resuming a) crashed = Z.of_nat done_before
  /\ (ckpt_path crashed = None /\ done_before = 0%nat
      \/ ckpt_path crashed = Some (ckpt_record (Z.of_nat done_before))).
Proof using All.
  destruct pre_scan as (nh & Hscan).
  pose proof (scan_last_checkpoint _ _ _ _ _ Hscan) as Hlast.
  unfold start_index, start_index_of, crashed. cbn [resuming resume].
  rewrite replay_ckpt, Hckpt.
  destruct (last (checkpoints_written pre)) as [n|].
  - subst n. split; [apply load_checkpoint_record | by right].
  - destruct Hlast as [Hnil _]. unfold done_before. rewrite Hnil.
    split; [done | by left].
Qed.

Local Lemma resumed_rows :
  processed_rows int_of_str (resuming a) fieldnames rows crashed
    = drop done_before rows'
  /\ rows_written (events_of (process_csv int_of_str (resuming a) fieldnames rows)
                             crashed)
     = enriched_on a w <$> drop done_before rows'.
Proof using All.
  assert (Hsame : same_network w crashed)
    by (apply same_network_replay, same_network_refl).
  assert (HV : processed_rows int_of_str (resuming a) fieldnames rows crashed
               = drop done_before rows').
  { unfold processed_rows. cbn [resuming barcode_col limit].
    rewrite bool_decide_true by done.
    change (start_index int_of_str (Args _ _ _ _ _ true) crashed)
      with (start_index int_of_str (resuming a) crashed).
    rewrite (proj1 crashed_start).
    rewrite (visited_from _ (Z.of_nat done_before)) by lia.
    by rewrite Nat2Z.id. }
  split; [done|].
  rewrite rows_written_stationary by (by eapply stationary_same).
  rewrite HV. apply list_fmap_ext. intros _ r _.
  by apply enriched_on_resuming.
Qed.

End Interrupted.



(** * Properties of the lookups on the two product sites *)

Lemma normalize_barcode_fixed raw :
  html_barcode_image_fetcher.normalize_barcode
    (Some (html_barcode_image_fetcher.normalize_barcode raw))
  = html_barcode_image_fetcher.normalize_barcode raw.
Proof.
  unfold html_barcode_image_fetcher.normalize_barcode.
  rewrite !join_singletons. simpl. apply filter_filter_same.
Qed.

(** ** The loop that removes duplicates *)

Lemma dedupe_step_seen (seen : gset str) (unique : list str) (x : str) :
  x ∈ seen -> html_fetcher.dedupe_step (seen, unique) x = (seen, unique).
Proof.
  intros Hx. unfold html_fetcher.dedupe_step. simpl.
  by rewrite bool_decide_true.
Qed.

Lemma dedupe_step_new (seen : gset str) (unique : list str) (x : str) :
  x ∉ seen ->
  html_fetcher.dedupe_step (seen, unique) x = ({[x]} ∪ seen, unique ++ [x]).
Proof.
  intros Hx. unfold html_fetcher.dedupe_step. simpl.
  by rewrite bool_decide_false.
Qed.

Lemma dedupe_from (l : list str) (seen : gset str) (unique : list str) :
  (foldl html_fetcher.dedupe_step (seen, unique) l).2
  = unique ++ filter (fun u => u ∉ seen) (html_fetcher.dedupe l).
Proof.
  revert seen unique. induction l as [|x l IH]; intros seen unique.
  - simpl. by rewrite app_nil_r.
  - unfold html_fetcher.dedupe. simpl.
    rewrite (dedupe_step_new ∅ [] x) by apply not_elem_of_empty.
    rewrite (IH ({[x]} ∪ ∅) ([] ++ [x])). simpl.
    destruct (decide (x ∈ seen)) as [Hx|Hx].
    + rewrite dedupe_step_seen by done. rewrite IH. f_equal.
      rewrite filter_cons_False by (by intros []).
      rewrite list_filter_filter. apply list_filter_iff.
      intros u. set_unfold. split; [|tauto]. intros Hu.
      split; [done|]. by intros [->|[]].
    + rewrite dedupe_step_new by done. rewrite IH, <- app_assoc. f_equal.
      rewrite filter_cons_True by done. simpl. f_equal.
      rewrite list_filter_filter. apply list_filter_iff.
      intros u. set_unfold. tauto.
Qed.

Lemma dedupe_cons x l :
  html_fetcher.dedupe (x :: l)
  = x :: filter (fun u => u ≠ x) (html_fetcher.dedupe l).
Proof.
  unfold html_fetcher.dedupe at 1. simpl.
  rewrite (dedupe_step_new ∅ [] x) by apply not_elem_of_empty.
  rewrite dedupe_from. simpl. f_equal.
  apply list_filter_iff. intros u. set_unfold. tauto.
Qed.

Lemma dedupe_elem_of l u : u ∈ html_fetcher.dedupe l <-> u ∈ l.
Proof.
  induction l as [|x l IH]; [done|].
  rewrite dedupe_cons, !elem_of_cons, list_elem_of_filter, IH.
  destruct (decide (u = x)); tauto.
Qed.

Lemma dedupe_NoDup l : NoDup (html_fetcher.dedupe l).
Proof.
  induction l as [|x l IH]; [apply NoDup_nil_2|].
  rewrite dedupe_cons. apply NoDup_cons. split.
  - rewrite list_elem_of_filter. tauto.
  - by apply NoDup_filter.
Qed.

Lemma dedupe_head l : head (html_fetcher.dedupe l) = head l.
Proof. destruct l; [done|]. by rewrite dedupe_cons. Qed.

Section HtmlFetcher.
Import html_fetcher.
Context {soup tag : Type}.
Variable BeautifulSoup : str -> soup.
Variable select : soup -> str -> list tag.
Variable find_all : soup -> str -> list tag.
Variable get : tag -> str -> option str.
Variable description_of : soup -> option str.
Variable int_of_str : str -> option Z.

(** ** parse_image_candidates *)

Lemma stripped_elem_of v u : u ∈ stripped v -> presentable u.
Proof.
  unfold stripped. destruct v as [[|c s]|]; try by intros ?%elem_of_nil.
  destruct (str_truthy (strip (c :: s))) eqn:Hs; [|by intros ?%elem_of_nil].
  intros ->%list_elem_of_singleton.
  split; [by destruct (strip (c :: s)) | apply strip_ends].
Qed.

Lemma embedding_elem_of marker (img : tag) u :
  u ∈ embedding get marker img -> presentable u.
Proof.
  unfold embedding. rewrite list_elem_of_In, filter_In, <- list_elem_of_In.
  intros [Hu _]. by apply stripped_elem_of in Hu.
Qed.

Lemma candidates_presentable html barcode :
  Forall presentable
    (candidates_of BeautifulSoup select find_all get html barcode).
Proof.
  apply Forall_forall. intros u. unfold candidates_of.
  rewrite !elem_of_app, !list_elem_of_In, !in_flat_map.
  intros [(meta & _ & Hu)|[(selector & _ & Hu)|(img & _ & Hu)]].
  - by apply list_elem_of_In, stripped_elem_of in Hu.
  - apply in_flat_map in Hu as (img & _ & Hu).
    by apply list_elem_of_In, stripped_elem_of in Hu.
  - by apply list_elem_of_In, embedding_elem_of in Hu.
Qed.

(** X14.  [parse_image_candidates] returns every candidate the page offers
    exactly once, those and no others, each of them stripped and not empty;
    the first of the list is the first candidate found. *)
Theorem parse_image_candidates_unique html base_url barcode :
  let candidates := candidates_of BeautifulSoup select find_all get html barcode in
  let unique :=
    parse_image_candidates BeautifulSoup select find_all get html base_url barcode in
  NoDup unique
  /\ (forall url, url ∈ unique <-> url ∈ candidates)
  /\ Forall presentable unique
  /\ head unique = head candidates.
Proof.
  intros candidates unique. subst unique. unfold parse_image_candidates.
  fold candidates. split_and!.
  - apply dedupe_NoDup.
  - intros url. apply dedupe_elem_of.
  - apply Forall_forall. intros url Hurl.
    apply (proj1 (dedupe_elem_of _ _)) in Hurl.
    pose proof (candidates_presentable html barcode) as Hall.
    rewrite Forall_forall in Hall. by apply Hall.
  - apply dedupe_head.
Qed.

(** X15.  The content of the first og:image meta element, when it is not
    blank, is the first candidate: the one [enrich_csv] writes into the
    row. *)
Theorem parse_image_candidates_prefers_og_image html base_url barcode
    meta metas content :
  select (BeautifulSoup html) og_image_selector = meta :: metas ->
  get meta (py "content") = Some content ->
  strip content <> [] ->
  first_or_empty
    (parse_image_candidates BeautifulSoup select find_all get html base_url barcode)
  = strip content.
Proof.
  intros Hsel Hget Hstrip.
  assert (Hhead : head (parse_image_candidates BeautifulSoup select find_all get
                          html base_url barcode) = Some (strip content)).
  { unfold parse_image_candidates. rewrite dedupe_head.
    unfold candidates_of. rewrite Hsel. cbn [flat_map]. rewrite Hget.
    unfold stripped. destruct content as [|c s]; [done|].
    by destruct (strip (c :: s)). }
  by destruct (parse_image_candidates _ _ _ _ _ _ _) as [|u l]; simplify_eq/=.
Qed.

(** ** The monad of the second module *)

Lemma html_events_bind {A B} (c : M A) (k : A -> M B) w :
  events_of (bind c k) w
  = events_of c w
    ++ match outcome_of c w with
       | Ok a => events_of (k a) (world_after c w)
       | Raise _ => []
       end.
Proof.
  unfold events_of, outcome_of, world_after, bind.
  destruct (c w) as [[[a|e] w1] evs1]; simpl; [|by rewrite app_nil_r].
  by destruct (k a w1) as [[r w2] evs2].
Qed.

Lemma html_outcome_bind {A B} (c : M A) (k : A -> M B) w :
  outcome_of (bind c k) w
  = match outcome_of c w with
    | Ok a => outcome_of (k a) (world_after c w)
    | Raise e => Raise e
    end.
Proof.
  unfold events_of, outcome_of, world_after, bind.
  destruct (c w) as [[[a|e] w1] evs1]; simpl; [|done].
  by destruct (k a w1) as [[r w2] evs2].
Qed.

Lemma html_world_bind {A B} (c : M A) (k : A -> M B) w :
  world_after (bind c k) w
  = match outcome_of c w with
    | Ok a => world_after (k a) (world_after c w)
    | Raise e => world_after c w
    end.
Proof.
  unfold events_of, outcome_of, world_after, bind.
  destruct (c w) as [[[a|e] w1] evs1]; simpl; [|done].
  by destruct (k a w1) as [[r w2] evs2].
Qed.

Lemma gets_to_app url evs1 evs2 :
  gets_to url (evs1 ++ evs2) = (gets_to url evs1 + gets_to url evs2)%nat.
Proof. unfold gets_to. by rewrite List.filter_app, length_app. Qed.

Lemma gets_to_failed_attempts url url' d rs :
  gets_to url' (failed_attempts url d rs)
  = if decide (url = url') then length rs else 0%nat.
Proof.
  induction rs as [|r rs IH]; [by destruct (decide _)|].
  change (failed_attempts url d (r :: rs))
    with ([EvGet url r; EvSleep d] ++ failed_attempts url d rs).
  rewrite gets_to_app, IH. unfold gets_to. simpl.
  destruct (decide (url = url')) as [->|Hne].
  - by rewrite bool_decide_true.
  - by rewrite bool_decide_false.
Qed.

(** ** lookup_barcode_lookup and lookup_go_upc *)

Lemma get_answer url w :
  exists r,
    events_of (_get url) w = [EvGet url r]
    /\ outcome_of (_get url) w
       = Ok match r with
            | Page status_code text =>
                if 400 <=? status_code then None else Some text
            | GetFailed => None
            end.
Proof. by exists (network w (requests_sent w) url). Qed.

Lemma barcode_lookup_attempts_spec url barcode d n w :
  let c := barcode_lookup_attempts BeautifulSoup select find_all get
             url barcode d n in
  exists rs,
    Forall (fun r => candidates_in BeautifulSoup select find_all get
                       url barcode r = []) rs
    /\ ((length rs = n
         /\ events_of c w = failed_attempts url d rs
         /\ outcome_of c w = Ok [])
        \/ exists r u imgs,
             (length rs < n)%nat
             /\ events_of c w = failed_attempts url d rs ++ [EvGet url r]
             /\ candidates_in BeautifulSoup select find_all get url barcode r
                = u :: imgs
             /\ outcome_of c w = Ok (u :: imgs)).
Proof.
  revert w. induction n as [|n IH]; intros w c; subst c.
  { exists []. split; [constructor|]. by left. }
  cbn [barcode_lookup_attempts].
  rewrite html_events_bind, html_outcome_bind.
  destruct (get_answer url w) as (r & -> & ->).
  set (w1 := world_after (_get url) w).
  assert (Hfail :
    candidates_in BeautifulSoup select find_all get url barcode r = [] ->
    let next := bind (emit (EvSleep d))
                  (fun _ => barcode_lookup_attempts BeautifulSoup select
                              find_all get url barcode d n) in
    exists rs,
      Forall (fun r => candidates_in BeautifulSoup select find_all get
                         url barcode r = []) rs
      /\ ((length rs = S n
           /\ [EvGet url r] ++ events_of next w1 = failed_attempts url d rs
           /\ outcome_of next w1 = Ok [])
          \/ exists r' u imgs,
               (length rs < S n)%nat
               /\ [EvGet url r] ++ events_of next w1
                  = failed_attempts url d rs ++ [EvGet url r']
               /\ candidates_in BeautifulSoup select find_all get url barcode r'
                  = u :: imgs
               /\ outcome_of next w1 = Ok (u :: imgs))).
  { intros Hr next. subst next.
    rewrite html_events_bind, html_outcome_bind.
    change (outcome_of (emit (EvSleep d)) w1) with (@Ok unit tt).
    change (events_of (emit (EvSleep d)) w1) with [EvSleep d].
    change (world_after (emit (EvSleep d)) w1) with w1.
    destruct (IH w1) as (rs & Hrs & Hcases). exists (r :: rs).
    split; [by constructor|].
    destruct Hcases as [(Hlen & -> & ->)|(r' & u & imgs & Hlen & -> & Hr' & ->)].
    - left. split_and!; [simpl; lia|done..].
    - right. exists r', u, imgs. split_and!; [simpl; lia|done..]. }
  unfold candidates_in, text_of in Hfail.
  destruct r as [|status_code [|ch text]]; cbv beta iota zeta.
  - by apply Hfail.
  - destruct (400 <=? status_code); by apply Hfail.
  - destruct (400 <=? status_code) eqn:Hstatus; [by apply Hfail|].
    destruct (parse_image_candidates _ _ _ _ (ch :: text) url barcode)
      as [|u imgs] eqn:Hparse; [by apply Hfail|].
    exists []. split; [constructor|]. right.
    exists (Page status_code (ch :: text)), u, imgs.
    split_and!; [simpl; lia|done| |done].
    unfold candidates_in, text_of. by rewrite Hstatus.
Qed.

Lemma go_upc_attempts_spec url barcode d n w :
  let c := go_upc_attempts BeautifulSoup select find_all get description_of
             url barcode d n in
  let details := details_in BeautifulSoup select find_all get description_of
                   barcode in
  exists rs,
    Forall (fun r => found_something (details r).1 (details r).2 = false) rs
    /\ ((length rs = n
         /\ events_of c w = failed_attempts url d rs
         /\ outcome_of c w = Ok ([], None))
        \/ exists r,
             (length rs < n)%nat
             /\ events_of c w = failed_attempts url d rs ++ [EvGet url r]
             /\ found_something (details r).1 (details r).2 = true
             /\ outcome_of c w = Ok (details r)).
Proof.
  revert w. induction n as [|n IH]; intros w c details; subst c.
  { exists []. split; [constructor|]. by left. }
  cbn [go_upc_attempts].
  rewrite html_events_bind, html_outcome_bind.
  destruct (get_answer url w) as (r & -> & ->).
  set (w1 := world_after (_get url) w).
  assert (Hfail :
    found_something (details r).1 (details r).2 = false ->
    let next := bind (emit (EvSleep d))
                  (fun _ => go_upc_attempts BeautifulSoup select find_all get
                              description_of url barcode d n) in
    exists rs,
      Forall (fun r => found_something (details r).1 (details r).2 = false) rs
      /\ ((length rs = S n
           /\ [EvGet url r] ++ events_of next w1 = failed_attempts url d rs
           /\ outcome_of next w1 = Ok ([], None))
          \/ exists r',
               (length rs < S n)%nat
               /\ [EvGet url r] ++ events_of next w1
                  = failed_attempts url d rs ++ [EvGet url r']
               /\ found_something (details r').1 (details r').2 = true
               /\ outcome_of next w1 = Ok (details r'))).
  { intros Hr next. subst next.
    rewrite html_events_bind, html_outcome_bind.
    change (outcome_of (emit (EvSleep d)) w1) with (@Ok unit tt).
    change (events_of (emit (EvSleep d)) w1) with [EvSleep d].
    change (world_after (emit (EvSleep d)) w1) with w1.
    destruct (IH w1) as (rs & Hrs & Hcases). exists (r :: rs).
    split; [by constructor|].
    destruct Hcases as [(Hlen & -> & ->)|(r' & Hlen & -> & Hr' & ->)].
    - left. split_and!; [simpl; lia|done..].
    - right. exists r'. split_and!; [simpl; lia|done..]. }
  subst details. unfold details_in, text_of in Hfail.
  destruct r as [|status_code [|ch text]]; cbv beta iota zeta.
  - by apply Hfail.
  - destruct (400 <=? status_code); by apply Hfail.
  - destruct (400 <=? status_code) eqn:Hstatus; [by apply Hfail|].
    destruct (found_something
                (extract_go_upc_details _ _ _ _ _ (ch :: text) barcode).1
                (extract_go_upc_details _ _ _ _ _ (ch :: text) barcode).2)
      eqn:Hfound; [|by apply Hfail].
    exists []. split; [constructor|]. right.
    exists (Page status_code (ch :: text)).
    unfold details_in, text_of. rewrite Hstatus.
    split_and!; [simpl; lia|done..].
Qed.



(** ** find_images_from_sites *)

Lemma gets_to_last url url' d rs r :
  gets_to url' (failed_attempts url d rs ++ [EvGet url r])
  = if decide (url = url') then S (length rs) else 0%nat.
Proof.
  rewrite gets_to_app, gets_to_failed_attempts. unfold gets_to. simpl.
  destruct (decide (url = url')) as [->|Hne].
  - rewrite bool_decide_true by done. simpl. lia.
  - by rewrite bool_decide_false.
Qed.

Lemma barcode_lookup_attempts_gets url barcode d n w url' :
  let c := barcode_lookup_attempts BeautifulSoup select find_all get
             url barcode d n in
  (exists imgs, outcome_of c w = Ok imgs)
  /\ (url' <> url -> gets_to url' (events_of c w) = 0%nat)
  /\ (Nat.min 1 n <= gets_to url (events_of c w) <= n)%nat.
Proof.
  intros c.
  destruct (barcode_lookup_attempts_spec url barcode d n w)
    as (rs & _ & [(Hlen & Hevs & Hout)|(r & u & imgs & Hlen & Hevs & _ & Hout)]);
    fold c in Hevs, Hout; rewrite Hevs.
  - split; [by eauto|]. rewrite !gets_to_failed_attempts. split.
    + intros Hne. rewrite decide_False; [done | by intros ->].
    + rewrite decide_True by done. lia.
  - split; [by eauto|]. rewrite !gets_to_last. split.
    + intros Hne. rewrite decide_False; [done | by intros ->].
    + rewrite decide_True by done. lia.
Qed.

Lemma go_upc_attempts_gets url barcode d n w url' :
  let c := go_upc_attempts BeautifulSoup select find_all get description_of
             url barcode d n in
  (exists found, outcome_of c w = Ok found)
  /\ (url' <> url -> gets_to url' (events_of c w) = 0%nat)
  /\ (Nat.min 1 n <= gets_to url (events_of c w) <= n)%nat.
Proof.
  intros c.
  destruct (go_upc_attempts_spec url barcode d n w)
    as (rs & _ & [(Hlen & Hevs & Hout)|(r & Hlen & Hevs & _ & Hout)]);
    fold c in Hevs, Hout; rewrite Hevs.
  - split; [by eauto|]. rewrite !gets_to_failed_attempts. split.
    + intros Hne. rewrite decide_False; [done | by intros ->].
    + rewrite decide_True by done. lia.
  - split; [by eauto|]. rewrite !gets_to_last. split.
    + intros Hne. rewrite decide_False; [done | by intros ->].
    + rewrite decide_True by done. lia.
Qed.

Lemma site_urls_differ b b' : go_upc_url b <> barcode_lookup_url b'.
Proof. unfold go_upc_url, barcode_lookup_url. by cbv [py]. Qed.

Lemma site_url_inj b b' :
  (go_upc_url b = go_upc_url b' -> b = b')
  /\ (barcode_lookup_url b = barcode_lookup_url b' -> b = b').
Proof. split; apply app_inv_head. Qed.

Lemma find_images_gets barcode w :
  let b := html_barcode_image_fetcher.normalize_barcode barcode in
  let c := find_images_from_sites BeautifulSoup select find_all get
             description_of barcode in
  (exists urls, outcome_of c w = Ok urls)
  /\ match b with
     | [] => events_of c w = [] /\ outcome_of c w = Ok (Results [] None [])
     | _ :: _ =>
         (1 <= gets_to (go_upc_url b) (events_of c w) <= 2)%nat
         /\ (1 <= gets_to (barcode_lookup_url b) (events_of c w) <= 2)%nat
         /\ forall url, url <> go_upc_url b -> url <> barcode_lookup_url b ->
                        gets_to url (events_of c w) = 0%nat
     end.
Proof.
  intros b c. subst c. unfold find_images_from_sites. fold b.
  destruct b as [|ch k] eqn:Hb; [by eauto|]. cbn [str_truthy].
  unfold lookup_go_upc, lookup_barcode_lookup.
  change (Z.to_nat (default_retries + 1)) with 2%nat.
  set (key := ch :: k).
  rewrite !html_events_bind, !html_outcome_bind.
  pose proof (go_upc_attempts_gets (go_upc_url key) key default_delay_s 2 w)
    as Hgo.
  destruct (Hgo (go_upc_url key)) as ([found Hfound] & _ & Hgo1).
  rewrite Hfound.
  set (w1 := world_after _ w).
  rewrite !html_events_bind, !html_outcome_bind.
  pose proof (barcode_lookup_attempts_gets (barcode_lookup_url key) key
                default_delay_s 2 w1) as Hbl.
  destruct (Hbl (barcode_lookup_url key)) as ([imgs Himgs] & _ & Hbl1).
  rewrite Himgs. split; [by eauto|].
  change (events_of (ret _) _) with (@nil event). rewrite app_nil_r.
  rewrite !gets_to_app.
  rewrite (proj1 (proj2 (Hbl (go_upc_url key)))) by apply site_urls_differ.
  rewrite (proj1 (proj2 (Hgo (barcode_lookup_url key))))
    by (intros Heq; by apply (site_urls_differ key key)).
  split_and!; [simpl in *; lia..|].
  intros url Hne1 Hne2. rewrite gets_to_app.
  rewrite (proj1 (proj2 (Hgo url))) by done.
  by rewrite (proj1 (proj2 (Hbl url))).
Qed.


(** ** enrich_csv *)

Lemma html_commit_gets fields st w url :
  gets_to url (events_of (commit fields st) w) = 0%nat
  /\ exists st', outcome_of (commit fields st) w = Ok st'.
Proof. split; [done | by eexists]. Qed.

(** The requests for the page of key [k] on either site, among those of a
    lookup for key [k']. *)
Lemma find_images_gets_for k k' w url :
  k <> [] ->
  url = go_upc_url k \/ url = barcode_lookup_url k ->
  let c := find_images_from_sites BeautifulSoup select find_all get
             description_of (Some (html_barcode_image_fetcher.normalize_barcode k')) in
  let n := if decide (html_barcode_image_fetcher.normalize_barcode k' = k)
           then 1%nat else 0%nat in
  (n <= gets_to url (events_of c w) <= 2 * n)%nat.
Proof.
  intros Hk Hurl c n. subst c n.
  pose proof (find_images_gets
                (Some (html_barcode_image_fetcher.normalize_barcode k')) w)
    as [_ Hfind].
  rewrite normalize_barcode_fixed in Hfind.
  cbv zeta in Hfind.
  destruct (html_barcode_image_fetcher.normalize_barcode k') as [|ch b] eqn:Hb.
  - destruct Hfind as [-> _]. rewrite decide_False by done. by simpl.
  - destruct Hfind as (Hgo & Hbl & Hother).
    destruct (decide (ch :: b = k)) as [<-|Hne].
    + destruct Hurl as [->| ->]; lia.
    + rewrite Hother; [lia| |].
      * destruct Hurl as [->| ->].
        -- intros Heq. by apply site_url_inj in Heq.
        -- intros Heq. by apply (site_urls_differ (ch :: b) k).
      * destruct Hurl as [->| ->].
        -- apply site_urls_differ.
        -- intros Heq. by apply site_url_inj in Heq.
Qed.

Lemma enrich_row_gets a fields rows st idx w r url :
  py_index rows idx = Some r ->
  let c := enrich_row BeautifulSoup select find_all get description_of
             a fields rows st idx in
  (exists st', outcome_of c w = Ok st')
  /\ gets_to url (events_of c w)
     = gets_to url
         (events_of (find_images_from_sites BeautifulSoup select find_all get
                       description_of (Some (key_of a r))) w).
Proof.
  intros Hidx c. subst c. unfold enrich_row. rewrite Hidx.
  rewrite html_events_bind, html_outcome_bind. fold (key_of a r).
  destruct (find_images_gets (Some (key_of a r)) w) as [[urls Hurls] _].
  rewrite Hurls, gets_to_app.
  destruct (_ && _).
  - destruct (html_commit_gets fields
                (LoopState (processed_count st + 1)
                           (pending_batch st ++ [row_out_of r urls])
                           (needs_header st))
                (world_after (find_images_from_sites BeautifulSoup select
                                find_all get description_of
                                (Some (key_of a r))) w) url)
      as [-> Hok].
    split; [done | lia].
  - split; [by eexists|]. change (events_of (ret _) _) with (@nil event).
    unfold gets_to at 2. simpl. lia.
Qed.

Lemma enrich_loop_gets a fields rows idxs st w k url :
  k <> [] ->
  url = go_upc_url k \/ url = barcode_lookup_url k ->
  let n := length (filter (fun r => key_of a r = k) (visited rows idxs)) in
  (n <= gets_to url
          (events_of (for_each (enrich_row BeautifulSoup select find_all get
                                  description_of a fields rows) idxs st) w)
     <= 2 * n)%nat.
Proof.
  intros Hk Hurl. revert st w.
  induction idxs as [|idx idxs IH]; intros st w n; subst n; [by simpl|].
  cbn [for_each visited]. rewrite html_events_bind.
  destruct (py_index rows idx) as [r|] eqn:Hidx.
  - destruct (enrich_row_gets a fields rows st idx w r url Hidx)
      as [[st' Hst'] Hgets].
    rewrite Hst', gets_to_app, Hgets.
    pose proof (find_images_gets_for k
                  (default (Some []) (dict_get r (barcode_col a))) w url Hk Hurl)
      as Hrow.
    cbv zeta in Hrow. fold (key_of a r) in Hrow.
    specialize (IH st' (world_after (enrich_row BeautifulSoup select find_all
                                       get description_of a fields rows st idx)
                                    w)).
    cbv zeta in IH. rewrite filter_cons.
    destruct (decide (key_of a r = k)); simpl length; lia.
  - unfold enrich_row. rewrite Hidx.
    change (outcome_of (raise IndexError) w) with (@Raise loop_state IndexError).
    change (events_of (raise IndexError) w) with (@nil event).
    unfold gets_to. simpl. lia.
Qed.

Lemma enrich_csv_gets a fieldnames rows w k url :
  k <> [] ->
  url = go_upc_url k \/ url = barcode_lookup_url k ->
  let evs := events_of (enrich_csv BeautifulSoup select find_all get
                          description_of int_of_str a fieldnames rows) w in
  let n := length (filter (fun r => key_of a r = k)
                          (processed_rows int_of_str a fieldnames rows w)) in
  (n <= gets_to url evs <= 2 * n)%nat.
Proof.
  intros Hk Hurl evs n. subst evs n. unfold enrich_csv, processed_rows.
  destruct (bool_decide (barcode_col a ∈ fieldnames)); [|by simpl].
  cbv zeta. rewrite html_events_bind.
  change (outcome_of (emit EvMakedirs) w) with (@Ok unit tt).
  change (events_of (emit EvMakedirs) w) with [EvMakedirs].
  change (world_after (emit EvMakedirs) w) with w.
  cbv beta iota. rewrite html_events_bind.
  change (outcome_of get_world w) with (Ok w).
  change (events_of get_world w) with (@nil event).
  change (world_after get_world w) with w.
  cbv beta iota zeta. rewrite html_events_bind, !gets_to_app.
  set (loop := for_each _ _ _).
  assert (Hlast : gets_to url
                    match outcome_of loop w with
                    | Ok st =>
                        events_of
                          match pending_batch st with
                          | [] => ret tt
                          | _ :: _ =>
                              bind (commit (out_fields_of fieldnames) st)
                                   (fun _ => ret tt)
                          end (world_after loop w)
                    | Raise _ => []
                    end = 0%nat).
  { destruct (outcome_of loop w) as [st|]; [|done].
    by destruct (pending_batch st). }
  rewrite Hlast.
  pose proof (enrich_loop_gets a (out_fields_of fieldnames)
                (apply_limit (limit a) rows)
                (py_range (start_index_of int_of_str (resume a) (ckpt_path w))
                          (Z.of_nat (length (apply_limit (limit a) rows))))
                (LoopState (start_index_of int_of_str (resume a) (ckpt_path w))
                           [] (initial_needs_header (resume a) (progress_csv w)))
                w k url Hk Hurl) as Hloop.
  cbv zeta in Hloop. fold loop in Hloop.
  change (gets_to url [EvMakedirs]) with 0%nat.
  change (gets_to url []) with 0%nat. lia.
Qed.


(** X20.  When the barcode column is not among the field names,
    [enrich_csv] raises ValueError before it creates the output directory,
    sends a request or writes a file. *)
Theorem enrich_csv_missing_column a fieldnames rows w :
  barcode_col a ∉ fieldnames ->
  let c := enrich_csv BeautifulSoup select find_all get description_of
             int_of_str a fieldnames rows in
  outcome_of c w = Raise ValueError /\ events_of c w = [] /\ world_after c w = w.
Proof.
  intros Hcol c. subst c. unfold enrich_csv.
  by rewrite bool_decide_false.
Qed.

End HtmlFetcher.

Lemma parse_image_candidates_prefers_og_image_witness :
  let html := py " http://img/1.jpg " in
  (one_meta_select (id html) html_fetcher.og_image_selector = [html]
   /\ content_of html (py "content") = Some html
   /\ strip html <> [])
  /\ html_fetcher.first_or_empty
       (html_fetcher.parse_image_candidates id one_meta_select no_tag content_of
          html (py "https://www.barcodelookup.com/012345") (py "012345"))
     = py "http://img/1.jpg".
Proof.
  intros html.
  assert (H1 : one_meta_select (id html) html_fetcher.og_image_selector = [html])
    by reflexivity.
  assert (H2 : content_of html (py "content") = Some html) by reflexivity.
  assert (H3 : strip html <> []) by (by vm_compute).
  split; [by split_and!|].
  exact (parse_image_candidates_prefers_og_image id one_meta_select no_tag
           content_of html (py "https://www.barcodelookup.com/012345")
           (py "012345") html [] html H1 H2 H3).
Defined.


Lemma enrich_csv_missing_column_witness :
  (barcode ∉ [py "name"])
  /\ html_fetcher.outcome_of (enrich_csv_on_pages 1 false [py "name"] [row_of "1"])
       html_fresh = Raise ValueError
  /\ html_fetcher.events_of (enrich_csv_on_pages 1 false [py "name"] [row_of "1"])
       html_fresh = []
  /\ html_fetcher.world_after (enrich_csv_on_pages 1 false [py "name"] [row_of "1"])
       html_fresh = html_fresh.
Proof.
  assert (H : barcode ∉ [py "name"])
    by (intros Hin%list_elem_of_singleton; discriminate Hin).
  split; [exact H|].
  exact (enrich_csv_missing_column id one_meta_select no_tag content_of
           no_description int_rejecting
           (html_fetcher.Args barcode None 1 false) [py "name"] [row_of "1"]
           html_fresh H).
Defined.
